(** * CreditRiskModel: synthetic portfolios, PD calibration and stress testing

    A shallow embedding of [src/credit_risk_model.py].  Python [float]s are
    IEEE 754 binary64 numbers and are modelled by Rocq's primitive floats, so
    NaN, the infinities and signed zeros behave as they do at run time.  The
    instance state ([rng], [pd_scalers]) is threaded through a small
    state-and-exception monad. *)

From Stdlib Require Import ZArith Floats Lia Bool.
From stdpp Require Import base option list gmap strings sorting pretty.

Set Warnings "-inexact-float".

Open Scope Z_scope.

(** ** Binary64 arithmetic *)

(** [lo <= x <= hi] for the IEEE comparison (false as soon as one side is NaN). *)
Definition within (lo hi x : float) : Prop :=
  PrimFloat.leb lo x = true /\ PrimFloat.leb x hi = true.

(** [np.clip] on a double or an array of doubles runs numpy's clip kernel:
    [_NPY_MAX(a, b)] is [isnan(a) ? a : (a > b ? a : b)],
    [_NPY_MIN(a, b)] is [isnan(a) ? a : (a < b ? a : b)] and
    [_NPY_CLIP(x, lo, hi)] is [_NPY_MIN(_NPY_MAX(x, lo), hi)]. *)
Definition np_max (a b : float) : float :=
  if PrimFloat.is_nan a then a else if PrimFloat.ltb b a then a else b.

Definition np_min (a b : float) : float :=
  if PrimFloat.is_nan a then a else if PrimFloat.ltb a b then a else b.

Definition np_clip (x lo hi : float) : float := np_min (np_max x lo) hi.

(** Python's [min(a, b)] and [max(a, b)]: the first argument unless the
    second is strictly beyond it. *)
Definition py_min (a b : float) : float := if PrimFloat.ltb b a then b else a.

Definition py_max (a b : float) : float := if PrimFloat.ltb a b then b else a.

(** pandas' [Series.clip(lower, upper)] on one element, which is what
    [np.clip] runs when its first argument is a Series: a NaN bound is no
    bound, two scalar bounds are put in order, and the element is replaced
    by a bound only when it is a number beyond that bound. *)
Definition series_clip (x lower upper : float) : float :=
  let lower := if PrimFloat.is_nan lower then None else Some lower in
  let upper := if PrimFloat.is_nan upper then None else Some upper in
  let '(lower, upper) :=
    match lower, upper with
    | Some lo, Some hi => (Some (py_min lo hi), Some (py_max lo hi))
    | _, _ => (lower, upper)
    end in
  let result :=
    match lower with
    | Some lo => if PrimFloat.is_nan x || PrimFloat.leb lo x then x else lo
    | None => x
    end in
  match upper with
  | Some hi => if PrimFloat.is_nan x || PrimFloat.leb x hi then result else hi
  | None => result
  end.

(** The clamp of the specification, [clamp(x, lo, hi)]: [lo] below [lo],
    [hi] above [hi], [x] itself in between.  It is stated here to compare
    the two clips of the code with it. *)
Definition clamp (x lo hi : float) : float :=
  if PrimFloat.ltb x lo then lo else if PrimFloat.ltb hi x then hi else x.


(** [int -> float]: exact below 2^53 in magnitude. *)
Definition float_of_Z (z : Z) : float :=
  match z with
  | Z0 => PrimFloat.zero
  | Zpos _ => PrimFloat.of_uint63 (Uint63.of_Z z)
  | Zneg _ => PrimFloat.opp (PrimFloat.of_uint63 (Uint63.of_Z (Z.opp z)))
  end.

Definition float_of_bool (b : bool) : float := if b then 1.0%float else 0.0%float.

(** The comparison of two floats, read through their specification. *)
Definition fcmp (x y : float) : option comparison :=
  SFcompare (Prim2SF x) (Prim2SF y).

(** A rank whose lexicographic order sorts the values other than NaN as
    [SFcompare] does: the sign class, then exponent and mantissa. *)
Definition sf_rank (p : spec_float) : Z * Z * Z :=
  match p with
  | S754_zero _ => (0, 0, 0)
  | S754_nan => (0, 0, 0)
  | S754_infinity false => (2, 0, 0)
  | S754_infinity true => (-2, 0, 0)
  | S754_finite false m e => (1, e, Zpos m)
  | S754_finite true m e => (-1, - e, Zneg m)
  end.

Definition lex_compare (a b : Z * Z * Z) : comparison :=
  match a.1.1 ?= b.1.1 with
  | Eq => match a.1.2 ?= b.1.2 with
          | Eq => a.2 ?= b.2
          | c => c
          end
  | c => c
  end.

Definition rank (x : float) : Z * Z * Z := sf_rank (Prim2SF x).

Definition rank_lt (a b : Z * Z * Z) : Prop :=
  a.1.1 < b.1.1 \/
  (a.1.1 = b.1.1 /\ (a.1.2 < b.1.2 \/ (a.1.2 = b.1.2 /\ a.2 < b.2))).

Definition rank_le (a b : Z * Z * Z) : Prop :=
  a.1.1 < b.1.1 \/
  (a.1.1 = b.1.1 /\ (a.1.2 < b.1.2 \/ (a.1.2 = b.1.2 /\ a.2 <= b.2))).

(** ** Tables *)

(** A [datetime.date], as its day number; [d + timedelta(days=k)] is [d + k].
    The day numbers are not bounded here: [datetime] keeps to the years 1 to
    9999 and raises [OverflowError] beyond them, which the model does not
    follow. *)
Definition date := Z.

(** The exceptions the module can raise: the [ValueError] of
    [_require_columns] (its message lists [sorted(missing)]), the [KeyError]
    of [self.base_pd[seg]], and pandas' [ValueError] for [pd.concat([])]
    ("No objects to concatenate").  On a table that carries a column label
    more than once the code ends, where it uses [frame[label]] as one
    column, in a [ValueError] or a [TypeError] raised inside pandas or
    Python ([RepeatedLabel], with the label read), or in pandas'
    [ValueError] for a list of values of another length than the table
    ([LengthMismatch]). *)
Inductive exn :=
| MissingColumns (missing : list string)
| KeyError (key : string)
| NoObjectsToConcatenate
| RepeatedLabel (label : string)
| LengthMismatch.

(** One row of a portfolio table.  A table records in [columns] which of the
    fields it really has; the fields of columns it lacks are never read. *)
Record Row := mkRow {
  account_id : string;
  as_of_date : date;
  segment : string;
  ead : float;
  lgd : float;
  coupon : float;
  term_months : Z;
  pd_estimate : float;
  default_flag : bool;
  realized_lgd : float;
  loss : float;
  period : Z;
  pd_calibrated : float;
  expected_loss : float;
  pd_stressed : float;
  lgd_stressed : float;
  expected_loss_stressed : float
}.

(** A table: its column labels in order and its rows.  pandas admits a
    label more than once in [columns]; such a table is represented with one
    value per label and row, its equally labelled columns holding the same
    values. *)
Record DataFrame := mkFrame {
  columns : list string;
  rows : list Row
}.

(** How many columns carry a label. *)
Definition label_count (label : string) (cols : list string) : nat :=
  length (filter (fun c => c = label) cols).

Definition repeated (label : string) (frame : DataFrame) : bool :=
  bool_decide (1 < label_count label (columns frame))%nat.

(** None of [labels] stands for more than one column of the table: the
    columns of the table that carry one of them have distinct labels. *)
Definition distinct_labels (labels : list string) (frame : DataFrame) : Prop :=
  NoDup (filter (fun c => c ∈ labels) (columns frame)).

(** [frame[label]] used as one column, in arithmetic with a column or in a
    test: where the label is repeated [frame[label]] is a table, and the
    arithmetic or the test raises inside pandas. *)
Definition column {A : Type} (label : string) (field : Row -> A)
    (frame : DataFrame) : exn + list A :=
  if repeated label frame then inl (RepeatedLabel label)
  else inr (map field (rows frame)).

(** [iter(frame[label])]: the values of the column or, where the label is
    repeated, the column labels of the table [frame[label]]. *)
Definition iterate {A : Type} (label : string) (field : Row -> A)
    (frame : DataFrame) : list (string + A) :=
  if repeated label frame
  then replicate (label_count label (columns frame)) (inl label)
  else map (fun r => inr (field r)) (rows frame).

Definition set_default_flag (v : bool) (r : Row) : Row :=
  mkRow (account_id r) (as_of_date r) (segment r) (ead r) (lgd r) (coupon r)
    (term_months r) (pd_estimate r) v (realized_lgd r) (loss r) (period r)
    (pd_calibrated r) (expected_loss r) (pd_stressed r) (lgd_stressed r)
    (expected_loss_stressed r).

Definition set_realized_lgd (v : float) (r : Row) : Row :=
  mkRow (account_id r) (as_of_date r) (segment r) (ead r) (lgd r) (coupon r)
    (term_months r) (pd_estimate r) (default_flag r) v (loss r) (period r)
    (pd_calibrated r) (expected_loss r) (pd_stressed r) (lgd_stressed r)
    (expected_loss_stressed r).

Definition set_loss (v : float) (r : Row) : Row :=
  mkRow (account_id r) (as_of_date r) (segment r) (ead r) (lgd r) (coupon r)
    (term_months r) (pd_estimate r) (default_flag r) (realized_lgd r) v (period r)
    (pd_calibrated r) (expected_loss r) (pd_stressed r) (lgd_stressed r)
    (expected_loss_stressed r).

Definition set_period (v : Z) (r : Row) : Row :=
  mkRow (account_id r) (as_of_date r) (segment r) (ead r) (lgd r) (coupon r)
    (term_months r) (pd_estimate r) (default_flag r) (realized_lgd r) (loss r) v
    (pd_calibrated r) (expected_loss r) (pd_stressed r) (lgd_stressed r)
    (expected_loss_stressed r).

Definition set_pd_calibrated (v : float) (r : Row) : Row :=
  mkRow (account_id r) (as_of_date r) (segment r) (ead r) (lgd r) (coupon r)
    (term_months r) (pd_estimate r) (default_flag r) (realized_lgd r) (loss r)
    (period r) v (expected_loss r) (pd_stressed r) (lgd_stressed r)
    (expected_loss_stressed r).

Definition set_expected_loss (v : float) (r : Row) : Row :=
  mkRow (account_id r) (as_of_date r) (segment r) (ead r) (lgd r) (coupon r)
    (term_months r) (pd_estimate r) (default_flag r) (realized_lgd r) (loss r)
    (period r) (pd_calibrated r) v (pd_stressed r) (lgd_stressed r)
    (expected_loss_stressed r).

Definition set_pd_stressed (v : float) (r : Row) : Row :=
  mkRow (account_id r) (as_of_date r) (segment r) (ead r) (lgd r) (coupon r)
    (term_months r) (pd_estimate r) (default_flag r) (realized_lgd r) (loss r)
    (period r) (pd_calibrated r) (expected_loss r) v (lgd_stressed r)
    (expected_loss_stressed r).

Definition set_lgd_stressed (v : float) (r : Row) : Row :=
  mkRow (account_id r) (as_of_date r) (segment r) (ead r) (lgd r) (coupon r)
    (term_months r) (pd_estimate r) (default_flag r) (realized_lgd r) (loss r)
    (period r) (pd_calibrated r) (expected_loss r) (pd_stressed r) v
    (expected_loss_stressed r).

Definition set_expected_loss_stressed (v : float) (r : Row) : Row :=
  mkRow (account_id r) (as_of_date r) (segment r) (ead r) (lgd r) (coupon r)
    (term_months r) (pd_estimate r) (default_flag r) (realized_lgd r) (loss r)
    (period r) (pd_calibrated r) (expected_loss r) (pd_stressed r)
    (lgd_stressed r) v.

(** [frame[name] = values] and [frame.assign(name=values)]: the column is
    replaced where it stands, or appended after the others. *)
Definition add_column (name : string) (cols : list string) : list string :=
  if bool_decide (name ∈ cols) then cols else cols ++ [name].

Definition assign {A : Type} (name : string) (set : A -> Row -> Row)
    (values : list A) (frame : DataFrame) : DataFrame :=
  mkFrame (add_column name (columns frame)) (zip_with set values (rows frame)).

(** [frame[name] = values] for a Python list: pandas refuses a list of
    another length than the table. *)
Definition assign_list {A : Type} (name : string) (set : A -> Row -> Row)
    (values : list A) (frame : DataFrame) : exn + DataFrame :=
  if bool_decide (length values = length (rows frame))
  then inr (assign name set values frame)
  else inl LengthMismatch.

(** The same with one scalar for every row ([assign(period=i + 1)]). *)
Definition assign_scalar {A : Type} (name : string) (set : A -> Row -> Row)
    (value : A) (frame : DataFrame) : DataFrame :=
  mkFrame (add_column name (columns frame)) (map (set value) (rows frame)).

(** [sorted(...)] on strings. *)
Definition sorted (l : list string) : list string := merge_sort String.le l.

(** [pd.concat(records, ignore_index=True)] for frames that share their
    columns: the rows in order; an empty list of frames is an error. *)
Definition pd_concat (records : list DataFrame) : exn + DataFrame :=
  match records with
  | [] => inl NoObjectsToConcatenate
  | first :: _ => inr (mkFrame (columns first) (concat (map rows records)))
  end.

(** [frame.groupby("segment")]: the groups in the sorted order of their
    keys, each with its rows in their order in the frame. *)
Definition groupby_segment (frame : DataFrame) : list (string * list Row) :=
  map (fun seg => (seg, filter (fun r => segment r = seg) (rows frame)))
      (sorted (remove_dups (map segment (rows frame)))).

(** pandas refuses to group by a label that stands for several columns
    ("Grouper for 'segment' not 1-dimensional"). *)
Definition groupby (frame : DataFrame) : exn + list (string * list Row) :=
  if repeated "segment" frame then inl (RepeatedLabel "segment")
  else inr (groupby_segment frame).

(** What [sorted(set(cols) - set(frame.columns))] is: increasing, without
    repetition, and holding exactly the required names the frame lacks. *)
Definition sorted_missing (required present l : list string) : Prop :=
  StronglySorted String.le l /\ NoDup l /\
  forall c, c ∈ l <-> c ∈ required /\ (c ∉ present).

(** The required names are all among the frame's columns. *)
Definition has_columns (frame : DataFrame) (cols : list string) : bool :=
  forallb (fun c => bool_decide (c ∈ columns frame)) cols.

(** The row of [calibrate_pd]'s summary table. *)
Record CalibrationRow := mkCalibrationRow {
  cal_segment : string;
  expected_pd : float;
  observed_default_rate : float;
  pd_scaler : float
}.

(** ** numpy and pandas

    The primitives the module calls and the repository does not define: a
    [numpy.random.Generator] with the draws used here, one value at a time
    (an array of [size] values is [size] draws in a row), and pandas'
    [Series.mean].

    [default_rng seed entropy] is [numpy.random.default_rng(seed)] run
    where the operating system would hand out [entropy]; numpy asks for it
    when [seed] is [None].

    The draws are total functions here.  numpy checks the arguments of a
    draw and raises on a range that is empty or not finite, on
    probabilities that do not sum to 1 and on a [p] that is NaN or outside
    [0, 1]; the model does not follow these checks.  What is proved of the
    generators is proved of the tables they return, or names the checks it
    sets aside. *)
Class Library := {
  Generator : Type;
  default_rng : option Z -> Z -> Generator;
  choice : Generator -> list string -> list float -> string * Generator;
  integers : Generator -> Z -> Z -> Z * Generator;
  uniform : Generator -> float -> float -> float * Generator;
  normal : Generator -> float -> float -> float * Generator;
  binomial : Generator -> Z -> float -> Z * Generator;
  mean : list float -> float
}.

(** What the generation theorems use of numpy's documentation: [choice]
    returns a member of its population and [binomial(n, p)] a count between
    0 and [n]. *)
Record LibraryLaws (Lib : Library) : Prop := {
  choice_elem : forall g a p, a <> [] -> (choice g a p).1 ∈ a;
  binomial_range : forall g n p, 0 <= n -> 0 <= (binomial g n p).1 <= n
}.


Section Model.

Context `{Lib : Library}.

(** [size] draws in a row. *)
Fixpoint draws {A : Type} (draw : Generator -> A * Generator) (size : nat)
    (g : Generator) : list A * Generator :=
  match size with
  | O => ([], g)
  | S size' =>
      let '(x, g1) := draw g in
      let '(xs, g2) := draws draw size' g1 in
      (x :: xs, g2)
  end.

(** One draw per element of an array argument ([binomial(n=1, p=array)]). *)
Fixpoint draws_over {A B : Type} (draw : Generator -> B -> A * Generator)
    (args : list B) (g : Generator) : list A * Generator :=
  match args with
  | [] => ([], g)
  | b :: args' =>
      let '(x, g1) := draw g b in
      let '(xs, g2) := draws_over draw args' g1 in
      (x :: xs, g2)
  end.

(** ** The model instance *)

Record CreditRiskModel := mkModel {
  seed : Z;
  segments : list string;
  base_pd : gmap string float;
  pd_floor : float;
  pd_cap : float;
  lgd_range : float * float;
  ead_range : Z * Z;
  coupon_range : float * float;
  term_range_months : Z * Z;
  rng : Generator;
  pd_scalers : gmap string float
}.

(** The dataclass constructor followed by [__post_init__], run where the
    operating system would hand out [entropy]. *)
Definition new_model (entropy : Z) (seed : Z) (segments : list string)
    (base_pd : gmap string float) (pd_floor pd_cap : float)
    (lgd_range : float * float) (ead_range : Z * Z)
    (coupon_range : float * float) (term_range_months : Z * Z)
    : CreditRiskModel :=
  mkModel seed segments base_pd pd_floor pd_cap lgd_range ead_range
    coupon_range term_range_months
    (default_rng (Some seed) entropy)
    (list_to_map (map (fun segment => (segment, 1.0%float)) segments)).

Definition default_segments : list string := ["Prime"; "Near-Prime"; "Subprime"].

Definition default_base_pd : gmap string float :=
  list_to_map [("Prime", 0.005%float); ("Near-Prime", 0.015%float);
               ("Subprime", 0.045%float)].

(** [CreditRiskModel(seed=seed)], every other field at its default. *)
Definition default_model (entropy : Z) (seed : Z) : CreditRiskModel :=
  new_model entropy seed default_segments default_base_pd 0.0005 0.40
    (0.25%float, 0.65%float) (1000, 25000) (0.025%float, 0.175%float) (12, 72).

Definition with_rng (g : Generator) (self : CreditRiskModel) : CreditRiskModel :=
  mkModel (seed self) (segments self) (base_pd self) (pd_floor self)
    (pd_cap self) (lgd_range self) (ead_range self) (coupon_range self)
    (term_range_months self) g (pd_scalers self).

Definition with_pd_scalers (s : gmap string float) (self : CreditRiskModel)
    : CreditRiskModel :=
  mkModel (seed self) (segments self) (base_pd self) (pd_floor self)
    (pd_cap self) (lgd_range self) (ead_range self) (coupon_range self)
    (term_range_months self) (rng self) s.

(** ** Methods as state transformers

    A method runs on the instance and returns a value or raises; what it
    did to the instance before raising stays done. *)
Definition M (A : Type) : Type :=
  CreditRiskModel -> (exn + A) * CreditRiskModel.

Definition ret {A : Type} (a : A) : M A := fun self => (inr a, self).

Definition bind {A B : Type} (c : M A) (k : A -> M B) : M B :=
  fun self =>
    match c self with
    | (inr a, self') => k a self'
    | (inl e, self') => (inl e, self')
    end.

Definition of_result {A : Type} (r : exn + A) : M A := fun self => (r, self).

Definition get_self : M CreditRiskModel := fun self => (inr self, self).

(** [self.rng.<draw>(...)]: the generator advances. *)
Definition with_generator {A : Type} (draw : Generator -> A * Generator) : M A :=
  fun self => let '(a, g) := draw (rng self) in (inr a, with_rng g self).

(** [self.pd_scalers[segment] = scaler]. *)
Definition set_pd_scaler (segment : string) (scaler : float) : M unit :=
  fun self => (inr tt, with_pd_scalers (<[segment := scaler]> (pd_scalers self)) self).

Notation "'let*' x ':=' c 'in' k" := (bind c (fun x => k))
  (at level 10, x name, c at level 100, k at level 200).

Fixpoint for_each {A B : Type} (body : A -> M B) (l : list A) : M (list B) :=
  match l with
  | [] => ret []
  | a :: l' => let* b := body a in let* bs := for_each body l' in ret (b :: bs)
  end.

(** A loop that appends one value per item and touches nothing else: the
    values in order, or the first exception. *)
Fixpoint try_map {A B : Type} (f : A -> exn + B) (l : list A) : exn + list B :=
  match l with
  | [] => inr []
  | a :: l' =>
      match f a with
      | inl e => inl e
      | inr b =>
          match try_map f l' with
          | inl e => inl e
          | inr bs => inr (b :: bs)
          end
      end
  end.

(** *** [_require_columns] *)

Definition _require_columns (frame : DataFrame) (cols : list string)
    : exn + unit :=
  let missing : gset string :=
    list_to_set cols ∖ list_to_set (columns frame) in
  if decide (missing = ∅) then inr tt
  else inl (MissingColumns (sorted (elements missing))).

(** *** [_segment_probs] *)

Definition _segment_probs (self : CreditRiskModel) : list float :=
  let n := length (segments self) in
  if decide (n <> 3%nat)
  then replicate n (1.0 / float_of_Z (Z.of_nat n))%float
  else [0.45; 0.35; 0.20]%float.

(** *** [generate_baseline_data] *)

Fixpoint zeros (n : nat) : string :=
  match n with
  | O => ""
  | S n' => "0" +:+ zeros n'
  end.

(** [f"ACC-{i:06d}"]. *)
Definition account_label (i : nat) : string :=
  let digits := pretty i in
  "ACC-" +:+ zeros (6 - String.length digits) +:+ digits.

(** The frame built from the drawn arrays, one row per index. *)
Fixpoint baseline_rows (i : nat) (as_of : date) (segs : list string)
    (eads : list Z) (lgds coupons : list float) (terms : list Z)
    (pds : list float) : list Row :=
  match segs, eads, lgds, coupons, terms, pds with
  | s :: segs', e :: eads', l :: lgds', c :: coupons', t :: terms', p :: pds' =>
      mkRow (account_label i) as_of s (float_of_Z e) l c t p
            false PrimFloat.nan PrimFloat.nan 0
            PrimFloat.nan PrimFloat.nan PrimFloat.nan PrimFloat.nan PrimFloat.nan
      :: baseline_rows (S i) as_of segs' eads' lgds' coupons' terms' pds'
  | _, _, _, _, _, _ => []
  end.

Definition baseline_columns : list string :=
  ["account_id"; "as_of_date"; "segment"; "ead"; "lgd"; "coupon";
   "term_months"; "pd_estimate"].

Definition lookup_base_pd (self : CreditRiskModel) (seg : string) : exn + float :=
  match base_pd self !! seg with
  | Some v => inr v
  | None => inl (KeyError seg)
  end.

(** [today] is what [dt.date.today()] returns when the call reads it.  The
    draws are those of [Library]: numpy's checks of their arguments are not
    followed. *)
Definition generate_baseline_data (today : date) (num_accounts : nat)
    (as_of_date : option date) : M DataFrame :=
  let* self := get_self in
  let as_of_date := default today as_of_date in
  let segment_probs := _segment_probs self in
  let* segs := with_generator
    (draws (fun g => choice g (segments self) segment_probs) num_accounts) in
  let* eads := with_generator
    (draws (fun g => integers g (ead_range self).1 ((ead_range self).2 + 1))
           num_accounts) in
  let* lgds := with_generator
    (draws (fun g => uniform g (lgd_range self).1 (lgd_range self).2)
           num_accounts) in
  let* coupons := with_generator
    (draws (fun g => uniform g (coupon_range self).1 (coupon_range self).2)
           num_accounts) in
  let* terms := with_generator
    (draws (fun g => integers g (term_range_months self).1
                              ((term_range_months self).2 + 1))
           num_accounts) in
  let* baseline_pd := for_each (fun seg => of_result (lookup_base_pd self seg)) segs in
  let* noise := with_generator
    (draws (fun g => normal g 1.0%float 0.15%float) num_accounts) in
  let pd_estimates :=
    zip_with (fun b z => np_clip (b * z)%float (pd_floor self) (pd_cap self))
             baseline_pd noise in
  ret (mkFrame baseline_columns
         (baseline_rows 0 as_of_date segs eads lgds coupons terms pd_estimates)).

(** *** [generate_historical_data] *)

(** The body of the loop, for period index [i]. *)
Definition historical_period (today : date) (start_date : date)
    (accounts_per_period : nat) (period_length_days : Z) (i : nat)
    : M DataFrame :=
  let* self := get_self in
  let as_of := start_date + Z.of_nat i * period_length_days in
  let* snap := generate_baseline_data today accounts_per_period (Some as_of) in
  let* default_flags := with_generator
    (draws_over (fun g p => binomial g 1 p) (map pd_estimate (rows snap))) in
  let* realized_lgds := with_generator
    (draws (fun g => uniform g (lgd_range self).1 (lgd_range self).2)
           accounts_per_period) in
  let losses :=
    zip_with (fun fe r => (fe * r)%float)
      (zip_with (fun f e => (float_of_Z f * e)%float)
                default_flags (map ead (rows snap)))
      realized_lgds in
  ret (assign_scalar "period" set_period (Z.of_nat i + 1)
        (assign "loss" set_loss losses
          (assign "realized_lgd" set_realized_lgd realized_lgds
            (assign "default_flag" set_default_flag
               (map (fun f => negb (f =? 0)) default_flags) snap)))).

(** The dates are unbounded day numbers and [binomial] is total: the code
    raises [OverflowError] for a date outside the range of [datetime], and
    numpy's [ValueError] for a [pd_estimate] that is NaN or outside
    [0, 1], where the model goes on. *)
Definition generate_historical_data (today : date) (periods : nat)
    (accounts_per_period : nat) (start_date : option date)
    (period_length_days : Z) : M DataFrame :=
  let start_date :=
    default (today - Z.of_nat periods * period_length_days) start_date in
  let* records := for_each
    (historical_period today start_date accounts_per_period period_length_days)
    (seq 0 periods) in
  of_result (pd_concat records).

(** *** [calibrate_pd] *)

Definition calibrate_columns : list string :=
  ["segment"; "pd_estimate"; "default_flag"].

Definition segment_scaler (observed_rate expected_rate : float) : float :=
  if PrimFloat.eqb expected_rate 0.0 then 1.0%float
  else np_clip (observed_rate / expected_rate) 0.25 4.0.

(** The body of the loop over the groups; a group has the columns [cols]
    of the panel.  The mean of the boolean column [default_flag] is the
    mean of its values read as 1.0 and 0.0.  [expected_rate] goes through
    the test [expected_rate == 0], which raises where [pd_estimate] is
    repeated and the mean is a table of means; [observed_rate] goes through
    no test, and with a repeated [default_flag] the code stores a table of
    equal entries where the model keeps the one number. *)
Definition calibrate_segment (cols : list string) (group : string * list Row)
    : M CalibrationRow :=
  let '(segment, frame) := group in
  let observed_rate := mean (map (fun r => float_of_bool (default_flag r)) frame) in
  let* pd_estimates :=
    of_result (column "pd_estimate" pd_estimate (mkFrame cols frame)) in
  let expected_rate := mean pd_estimates in
  let scaler := segment_scaler observed_rate expected_rate in
  let* _ := set_pd_scaler segment scaler in
  ret (mkCalibrationRow segment expected_rate observed_rate scaler).

Definition calibrate_pd (history : DataFrame) : M (list CalibrationRow) :=
  let* _ := of_result (_require_columns history calibrate_columns) in
  let* grouped := of_result (groupby history) in
  for_each (calibrate_segment (columns history)) grouped.

(** *** [score_portfolio] *)

Definition score_columns : list string :=
  ["account_id"; "segment"; "ead"; "lgd"; "pd_estimate"].

(** The body of the loop: [seg] and [pd_est] are values of the two
    columns or, from a repeated label, that label.  A label is looked up in
    [pd_scalers] like any segment; a label times a scaler is a
    [TypeError]. *)
Definition scale_pd (self : CreditRiskModel)
    (item : (string + string) * (string + float)) : exn + float :=
  let seg := match item.1 with inl label => label | inr seg => seg end in
  let scaler := default 1.0%float (pd_scalers self !! seg) in
  match item.2 with
  | inr pd_est =>
      inr (np_clip (pd_est * scaler)%float (pd_floor self) (pd_cap self))
  | inl label => inl (RepeatedLabel label)
  end.

Definition score_portfolio (portfolio : DataFrame) : M DataFrame :=
  let* _ := of_result (_require_columns portfolio score_columns) in
  let* self := get_self in
  let* scaled_pd :=
    of_result
      (try_map (scale_pd self)
         (zip (iterate "segment" segment portfolio)
              (iterate "pd_estimate" pd_estimate portfolio))) in
  let* portfolio :=
    of_result (assign_list "pd_calibrated" set_pd_calibrated scaled_pd portfolio) in
  let* eads := of_result (column "ead" ead portfolio) in
  let* lgds := of_result (column "lgd" lgd portfolio) in
  let* pds := of_result (column "pd_calibrated" pd_calibrated portfolio) in
  let portfolio :=
    assign "expected_loss" set_expected_loss
      (zip_with (fun el p => (el * p)%float)
         (zip_with (fun e l => (e * l)%float) eads lgds) pds)
      portfolio in
  ret portfolio.

(** *** [run_stress_scenario]

    [scored["pd_calibrated"]] and [scored["lgd"]] are Series
    ([score_portfolio] raised otherwise), so the two [np.clip] calls here
    are [Series.clip]. *)

Definition run_stress_scenario (portfolio : DataFrame)
    (pd_multiplier lgd_shift : float) (macro_shock : option float)
    : M DataFrame :=
  let* self := get_self in
  let* scored := score_portfolio portfolio in
  let shock := default 0.0%float macro_shock in
  let stressed_pd :=
    map (fun p => series_clip (p * pd_multiplier + shock * p)%float
                              (pd_floor self) (pd_cap self))
        (map pd_calibrated (rows scored)) in
  let stressed_lgd :=
    map (fun l => series_clip (l + lgd_shift)%float 0.0 1.0)
        (map lgd (rows scored)) in
  let stressed := assign "pd_stressed" set_pd_stressed stressed_pd scored in
  let stressed := assign "lgd_stressed" set_lgd_stressed stressed_lgd stressed in
  let* eads := of_result (column "ead" ead stressed) in
  let* lgds := of_result (column "lgd_stressed" lgd_stressed stressed) in
  let* pds := of_result (column "pd_stressed" pd_stressed stressed) in
  let stressed :=
    assign "expected_loss_stressed" set_expected_loss_stressed
      (zip_with (fun el p => (el * p)%float)
         (zip_with (fun e l => (e * l)%float) eads lgds) pds)
      stressed in
  ret stressed.

(** *** The methods read row by row

    What [score_portfolio] and [run_stress_scenario] do to one row, and what
    [calibrate_pd] computes for one group; the lemmas below show that on a
    table whose labels are distinct the methods are these maps. *)

Definition with_pd_calibrated (pd_cal : float) (r : Row) : Row :=
  set_expected_loss (ead r * lgd r * pd_cal)%float (set_pd_calibrated pd_cal r).

Definition scored_row (self : CreditRiskModel) (r : Row) : Row :=
  let scaler := default 1.0%float (pd_scalers self !! segment r) in
  let pd_cal := np_clip (pd_estimate r * scaler)%float (pd_floor self) (pd_cap self) in
  set_expected_loss (ead r * lgd r * pd_cal)%float (set_pd_calibrated pd_cal r).

Definition stressed_row (self : CreditRiskModel) (pd_multiplier lgd_shift shock : float)
    (r : Row) : Row :=
  let pd_s :=
    series_clip (pd_calibrated r * pd_multiplier + shock * pd_calibrated r)%float
                (pd_floor self) (pd_cap self) in
  let lgd_s := series_clip (lgd r + lgd_shift)%float 0.0 1.0 in
  set_expected_loss_stressed (ead r * lgd_s * pd_s)%float
    (set_lgd_stressed lgd_s (set_pd_stressed pd_s r)).

(** The labels [score_portfolio] reads as columns, and those
    [run_stress_scenario] reads after the scorer. *)
Definition score_reads : list string :=
  ["segment"; "pd_estimate"; "ead"; "lgd"; "pd_calibrated"].

Definition stress_reads : list string := ["lgd_stressed"; "pd_stressed"].

Definition scored_columns (cols : list string) : list string :=
  add_column "expected_loss" (add_column "pd_calibrated" cols).

Definition stressed_columns (cols : list string) : list string :=
  add_column "expected_loss_stressed"
    (add_column "lgd_stressed" (add_column "pd_stressed" cols)).

Definition group_scaler (group : string * list Row) : float :=
  segment_scaler
    (mean (map (fun r => float_of_bool (default_flag r)) group.2))
    (mean (map pd_estimate group.2)).

Definition group_summary (group : string * list Row) : CalibrationRow :=
  mkCalibrationRow group.1 (mean (map pd_estimate group.2))
    (mean (map (fun r => float_of_bool (default_flag r)) group.2))
    (group_scaler group).

(** The scaler map after the loop of [calibrate_pd] went over [groups]. *)
Definition calibrated_scalers (scalers : gmap string float)
    (groups : list (string * list Row)) : gmap string float :=
  foldl (fun m group => <[group.1 := group_scaler group]> m) scalers groups.

(** The configuration the generators need: some segment to choose from, and
    a base PD for every segment (the spec's invariant on [base_pd]). *)
Definition configured (self : CreditRiskModel) : Prop :=
  segments self <> [] /\
  forall s, s ∈ segments self -> is_Some (base_pd self !! s).

(** What the loop of [generate_historical_data] appends for period index [i]. *)
Definition period_frame (n : nat) (i : nat) (frame : DataFrame) : Prop :=
  length (rows frame) = n /\
  forall r, r ∈ rows frame ->
    period r = Z.of_nat i + 1 /\
    loss r = (float_of_bool (default_flag r) * ead r * realized_lgd r)%float.

(** ** Sequences of calls on one instance *)

Inductive call :=
| GenerateBaselineData (num_accounts : nat) (as_of_date : option date)
| GenerateHistoricalData (periods accounts_per_period : nat)
    (start_date : option date) (period_length_days : Z)
| CalibratePd (history : DataFrame)
| ScorePortfolio (portfolio : DataFrame)
| RunStressScenario (portfolio : DataFrame) (pd_multiplier lgd_shift : float)
    (macro_shock : option float).

(** What a call returns. *)
Inductive output :=
| Table (frame : DataFrame)
| Summary (calibration : list CalibrationRow).

Definition invoke (today : date) (c : call) : M output :=
  match c with
  | GenerateBaselineData n d =>
      let* t := generate_baseline_data today n d in ret (Table t)
  | GenerateHistoricalData p n d len =>
      let* t := generate_historical_data today p n d len in ret (Table t)
  | CalibratePd history => let* s := calibrate_pd history in ret (Summary s)
  | ScorePortfolio portfolio => let* t := score_portfolio portfolio in ret (Table t)
  | RunStressScenario portfolio m s k =>
      let* t := run_stress_scenario portfolio m s k in ret (Table t)
  end.

(** The calls one after the other, each with the date the clock shows when
    it runs; an exception ends its call, not the sequence. *)
Fixpoint run (calls : list (date * call)) (self : CreditRiskModel)
    : list (call * (exn + output)) * CreditRiskModel :=
  match calls with
  | [] => ([], self)
  | (today, c) :: calls' =>
      let '(result, self1) := invoke today c self in
      let '(results, self2) := run calls' self1 in
      ((c, result) :: results, self2)
  end.



Definition is_scoring (c : call) : bool :=
  match c with
  | ScorePortfolio _ | RunStressScenario _ _ _ _ => true
  | _ => false
  end.

End Model.

Arguments CreditRiskModel {Lib}.
Arguments M {Lib} A.

Notation "'let*' x ':=' c 'in' k" := (bind c (fun x => k))
  (at level 10, x name, c at level 100, k at level 200).

(** ** A small instance of the library interface

    A linear congruential generator with inverse-CDF sampling and the
    left-to-right mean: enough to run the model on concrete inputs. *)

Definition lcg_next (s : Z) : Z :=
  (s * 6364136223846793005 + 1442695040888963407) mod 2 ^ 64.

(** A float in [0, 1) from the high bits of the state. *)
Definition lcg_unit (s : Z) : float :=
  (float_of_Z (s / 2 ^ 11) / float_of_Z (2 ^ 53))%float.

Fixpoint lcg_pick (u acc : float) (a : list string) (p : list float)
    (last : string) : string :=
  match a with
  | [] => last
  | x :: a' =>
      match p with
      | [] => x
      | q :: p' =>
          if PrimFloat.ltb u (acc + q)%float then x
          else lcg_pick u (acc + q)%float a' p' x
      end
  end.

Definition lcg_choice (s : Z) (a : list string) (p : list float) : string * Z :=
  (lcg_pick (lcg_unit s) 0.0%float a p (hd "" a), lcg_next s).

Definition lcg_integers (s low high : Z) : Z * Z :=
  ((if low <? high then low + (s / 2 ^ 16) mod (high - low) else low), lcg_next s).

Definition lcg_uniform (s : Z) (low high : float) : float * Z :=
  ((low + (high - low) * lcg_unit s)%float, lcg_next s).

(** The sum of four uniforms, centred and scaled to unit variance. *)
Definition lcg_normal (s : Z) (loc scale : float) : float * Z :=
  let s1 := lcg_next s in
  let s2 := lcg_next s1 in
  let s3 := lcg_next s2 in
  let z := ((lcg_unit s + lcg_unit s1 + lcg_unit s2 + lcg_unit s3 - 2.0)
            * 1.7320508075688772)%float in
  ((loc + scale * z)%float, lcg_next s3).

Fixpoint lcg_trials (n : nat) (s : Z) (p : float) : Z * Z :=
  match n with
  | O => (0, s)
  | S n' =>
      let '(k, s') := lcg_trials n' (lcg_next s) p in
      ((if PrimFloat.ltb (lcg_unit s) p then k + 1 else k), s')
  end.

Definition lcg_binomial (s n : Z) (p : float) : Z * Z :=
  lcg_trials (Z.to_nat n) s p.

Definition naive_mean (l : list float) : float :=
  (fold_left PrimFloat.add l 0.0 / float_of_Z (Z.of_nat (length l)))%float.

Definition lcg_library : Library := {|
  Generator := Z;
  default_rng := fun seed entropy => lcg_next (default entropy seed);
  choice := lcg_choice;
  integers := lcg_integers;
  uniform := lcg_uniform;
  normal := lcg_normal;
  binomial := lcg_binomial;
  mean := naive_mean
|}.

(** ** Sample inputs *)

(** An account row with the five columns the scorer needs. *)
Definition account (id seg : string) (ead lgd pd_estimate : float) : Row :=
  mkRow id 738000 seg ead lgd 0.05%float 36 pd_estimate
        false PrimFloat.nan PrimFloat.nan 0
        PrimFloat.nan PrimFloat.nan PrimFloat.nan PrimFloat.nan PrimFloat.nan.

Definition sample_portfolio : DataFrame :=
  mkFrame baseline_columns
    [account "ACC-000000" "Prime" 10000 0.40 0.004;
     account "ACC-000001" "Subprime" 2500 0.55 0.050;
     account "ACC-000002" "Unrated" 4000 0.30 0.900].

(** A two-period panel with defaults only among the subprime accounts. *)
Definition sample_history : DataFrame :=
  mkFrame (baseline_columns ++ ["default_flag"; "realized_lgd"; "loss"; "period"])
    [set_default_flag false (account "ACC-000000" "Prime" 10000 0.40 0.004);
     set_default_flag true (account "ACC-000001" "Subprime" 2500 0.55 0.050);
     set_default_flag false (account "ACC-000000" "Subprime" 3000 0.45 0.040);
     set_default_flag false (account "ACC-000001" "Prime" 8000 0.35 0.006)].

(** A table without the [segment] and [default_flag] columns. *)
Definition sample_incomplete : DataFrame :=
  mkFrame ["account_id"; "ead"; "lgd"; "pd_estimate"]
    [account "ACC-000000" "" 10000 0.40 0.004].

(** A portfolio whose PD estimate is missing (NaN). *)
Definition sample_nan_portfolio : DataFrame :=
  mkFrame baseline_columns
    [account "ACC-000000" "Prime" 10000 PrimFloat.nan PrimFloat.nan].





(** A portfolio whose loss given default is the negative zero, and one
    whose PD estimate is infinite. *)
Definition sample_negative_zero_portfolio : DataFrame :=
  mkFrame baseline_columns
    [account "ACC-000000" "Prime" 10000 PrimFloat.neg_zero 0.01].

Definition sample_infinite_portfolio : DataFrame :=
  mkFrame baseline_columns
    [account "ACC-000000" "Prime" 10000 0.40 PrimFloat.infinity].

(** [CreditRiskModel(seed=42)] over the small library instance. *)
Definition sample_model : @CreditRiskModel lcg_library :=
  @default_model lcg_library 0 42.

(** [CreditRiskModel(seed=42, pd_cap=float("inf"))]. *)
Definition sample_uncapped_model : @CreditRiskModel lcg_library :=
  @new_model lcg_library 0 42 default_segments default_base_pd 0.0005
    PrimFloat.infinity (0.25%float, 0.65%float) (1000, 25000)
    (0.025%float, 0.175%float) (12, 72).

(** ** Further notions *)

(** What numpy documents of [Generator.integers(low, high)]: a value from
    [low] (inclusive) to [high] (exclusive). *)
Record IntegerLaws (Lib : Library) : Prop := {
  integers_range : forall g low high,
    low < high -> low <= (integers g low high).1 < high
}.

(** [frame[name] = values] for several names in turn. *)
Definition add_columns (names cols : list string) : list string :=
  foldl (fun cols name => add_column name cols) cols names.

(** The columns of a panel: those of a snapshot and the four
    [generate_historical_data] assigns. *)
Definition historical_columns : list string :=
  baseline_columns ++ ["default_flag"; "realized_lgd"; "loss"; "period"].

(** The number a string of decimal digits writes, and the number an
    account id ends with. *)
Definition digit_value (c : Ascii.ascii) : N :=
  (N.of_nat (Ascii.nat_of_ascii c) - 48)%N.

Fixpoint digits_value (acc : N) (s : string) : N :=
  match s with
  | EmptyString => acc
  | String c s' => digits_value (acc * 10 + digit_value c)%N s'
  end.

Definition account_number (id : string) : N :=
  match id with
  | String _ (String _ (String _ (String _ digits))) => digits_value 0 digits
  | _ => 0%N
  end.

Section Notions.

Context `{Lib : Library}.

(** No scaler differs from the 1.0 of [__post_init__]: the instance has not
    been calibrated, or calibration left every scaler at 1.0. *)
Definition uncalibrated (self : CreditRiskModel) : Prop :=
  forall seg v, pd_scalers self !! seg = Some v -> v = 1.0%float.

(** A method that neither reads nor writes [pd_scalers]. *)
Definition scaler_blind {A : Type} (c : M A) : Prop :=
  forall s self,
    c (with_pd_scalers s self) = ((c self).1, with_pd_scalers s (c self).2).

(** A segment [self.rng.choice(self.segments, p=segment_probs)] returned. *)
Definition drawn_segment (self : CreditRiskModel) (seg : string) : Prop :=
  exists g, seg = (choice g (segments self) (_segment_probs self)).1.

(** The snapshot of one period inside a panel. *)
Definition period_snapshot (self : CreditRiskModel) (n : nat) (start : date)
    (len : Z) (i : nat) (frame : DataFrame) : Prop :=
  columns frame = historical_columns /\
  length (rows frame) = n /\
  forall j r, rows frame !! j = Some r ->
    account_id r = account_label j /\
    as_of_date r = start + Z.of_nat i * len /\
    drawn_segment self (segment r) /\
    period r = Z.of_nat i + 1 /\
    exists x, pd_estimate r = np_clip x (pd_floor self) (pd_cap self).

End Notions.

(** ** Further sample inputs *)


(** The incomplete table with its columns in another order, one of them
    twice. *)
Definition sample_shuffled : DataFrame :=
  mkFrame ["pd_estimate"; "lgd"; "ead"; "account_id"; "ead"]
    [account "ACC-000000" "" 10000 0.40 0.004].

(** An instance with a segment that has no base PD. *)
Definition sample_unconfigured_model : @CreditRiskModel lcg_library :=
  @new_model lcg_library 0 42 ["Prime"; "Gold"] default_base_pd 0.0005 0.40
    (0.25%float, 0.65%float) (1000, 25000) (0.025%float, 0.175%float) (12, 72).


(** * Proofs *)

(** ** Binary64 facts *)

(** *** The comparison of two floats, through their specification *)

Lemma ltb_cmp x y : PrimFloat.ltb x y = true <-> fcmp x y = Some Lt.
Proof.
  rewrite FloatAxioms.ltb_spec. unfold SFltb, fcmp.
  destruct (SFcompare _ _) as [[]|]; split; congruence.
Qed.

Lemma leb_cmp x y :
  PrimFloat.leb x y = true <-> fcmp x y = Some Lt \/ fcmp x y = Some Eq.
Proof.
  rewrite FloatAxioms.leb_spec. unfold SFleb, fcmp.
  destruct (SFcompare _ _) as [[]|]; split; intuition congruence.
Qed.

Lemma SFcompare_refl p : p <> S754_nan -> SFcompare p p = Some Eq.
Proof.
  destruct p as [s|s| |s m e]; simpl; intros Hp; try congruence.
  - destruct s; reflexivity.
  - rewrite Z.compare_refl, Pcompare_refl. destruct s; reflexivity.
Qed.

Lemma SFcompare_nan_l p : SFcompare S754_nan p = None.
Proof. reflexivity. Qed.

Lemma SFcompare_nan_r p : SFcompare p S754_nan = None.
Proof. destruct p; reflexivity. Qed.

Lemma is_nan_spec x : PrimFloat.is_nan x = true <-> Prim2SF x = S754_nan.
Proof.
  unfold PrimFloat.is_nan. rewrite FloatAxioms.eqb_spec. unfold SFeqb.
  destruct (Prim2SF x) as [s|s| |s m e] eqn:E.
  - rewrite SFcompare_refl by congruence. simpl. split; congruence.
  - rewrite SFcompare_refl by congruence. simpl. split; congruence.
  - simpl. tauto.
  - rewrite SFcompare_refl by congruence. simpl. split; congruence.
Qed.

Lemma not_nan_spec x : PrimFloat.is_nan x = false <-> Prim2SF x <> S754_nan.
Proof.
  rewrite <- is_nan_spec. destruct (PrimFloat.is_nan x); split; congruence.
Qed.

Lemma cmp_refl x : PrimFloat.is_nan x = false -> fcmp x x = Some Eq.
Proof. intros H. apply SFcompare_refl. now apply not_nan_spec. Qed.

Lemma cmp_some_not_nan x y c :
  fcmp x y = Some c -> PrimFloat.is_nan x = false /\ PrimFloat.is_nan y = false.
Proof.
  unfold fcmp. intros H. split; apply not_nan_spec; intros E; rewrite E in H.
  - rewrite SFcompare_nan_l in H. discriminate.
  - rewrite SFcompare_nan_r in H. discriminate.
Qed.

Lemma leb_not_nan x y :
  PrimFloat.leb x y = true ->
  PrimFloat.is_nan x = false /\ PrimFloat.is_nan y = false.
Proof. rewrite leb_cmp. intros [H|H]; exact (cmp_some_not_nan _ _ _ H). Qed.

Lemma leb_refl x : PrimFloat.is_nan x = false -> PrimFloat.leb x x = true.
Proof. intros H. apply leb_cmp. right. now apply cmp_refl. Qed.

Lemma ltb_leb x y : PrimFloat.ltb x y = true -> PrimFloat.leb x y = true.
Proof. rewrite ltb_cmp, leb_cmp. tauto. Qed.

Lemma ltb_irrefl x : PrimFloat.ltb x x = false.
Proof.
  destruct (PrimFloat.ltb x x) eqn:E; [|reflexivity].
  apply ltb_cmp in E.
  destruct (cmp_some_not_nan _ _ _ E) as [Hx _].
  rewrite (cmp_refl _ Hx) in E. discriminate.
Qed.

Lemma ltb_not_nan x y :
  PrimFloat.ltb x y = true ->
  PrimFloat.is_nan x = false /\ PrimFloat.is_nan y = false.
Proof. rewrite ltb_cmp. apply cmp_some_not_nan. Qed.

(** *** Clipping *)

Lemma np_clip_nan lo hi : np_clip PrimFloat.nan lo hi = PrimFloat.nan.
Proof. reflexivity. Qed.

Lemma np_max_not_nan x lo :
  PrimFloat.is_nan x = false -> PrimFloat.is_nan lo = false ->
  PrimFloat.is_nan (np_max x lo) = false.
Proof.
  unfold np_max. intros Hx Hlo. rewrite Hx.
  now destruct (PrimFloat.ltb lo x).
Qed.

Lemma np_max_lower x lo :
  PrimFloat.is_nan x = false -> PrimFloat.is_nan lo = false ->
  PrimFloat.leb lo (np_max x lo) = true.
Proof.
  unfold np_max. intros Hx Hlo. rewrite Hx.
  destruct (PrimFloat.ltb lo x) eqn:E; [now apply ltb_leb | now apply leb_refl].
Qed.

(** A clipped value that started as a number lies between the bounds. *)
Lemma np_clip_within x lo hi :
  PrimFloat.leb lo hi = true -> PrimFloat.is_nan x = false ->
  within lo hi (np_clip x lo hi).
Proof.
  intros Hle Hx. destruct (leb_not_nan _ _ Hle) as [Hlo Hhi].
  pose proof (np_max_not_nan x lo Hx Hlo) as Hm.
  pose proof (np_max_lower x lo Hx Hlo) as Hlow.
  unfold within, np_clip, np_min. rewrite Hm.
  destruct (PrimFloat.ltb (np_max x lo) hi) eqn:E.
  - split; [exact Hlow | now apply ltb_leb].
  - split; [exact Hle | now apply leb_refl].
Qed.

(** NaN goes through the clip, and nothing else becomes NaN between two
    numeric bounds. *)
Lemma np_clip_is_nan x lo hi :
  PrimFloat.is_nan lo = false -> PrimFloat.is_nan hi = false ->
  PrimFloat.is_nan (np_clip x lo hi) = PrimFloat.is_nan x.
Proof.
  intros Hlo Hhi. unfold np_clip, np_min.
  destruct (PrimFloat.is_nan x) eqn:Hx.
  - unfold np_max. rewrite Hx, Hx. exact Hx.
  - rewrite (np_max_not_nan x lo Hx Hlo).
    destruct (PrimFloat.ltb _ hi); [now apply np_max_not_nan | exact Hhi].
Qed.

Lemma np_clip_not_nan_within x lo hi :
  PrimFloat.leb lo hi = true ->
  PrimFloat.is_nan (np_clip x lo hi) = false ->
  within lo hi (np_clip x lo hi).
Proof.
  intros Hle Hn. destruct (leb_not_nan _ _ Hle) as [Hlo Hhi].
  rewrite np_clip_is_nan in Hn by assumption. now apply np_clip_within.
Qed.

Lemma np_clip_idemp x lo hi :
  np_clip (np_clip x lo hi) lo hi = np_clip x lo hi.
Proof.
  unfold np_clip, np_min, np_max.
  destruct (PrimFloat.is_nan x) eqn:Hx, (PrimFloat.ltb lo x) eqn:Hlx,
    (PrimFloat.is_nan lo) eqn:Hl, (PrimFloat.is_nan hi) eqn:Hh,
    (PrimFloat.ltb x hi) eqn:Hxh, (PrimFloat.ltb lo hi) eqn:Hlh;
    repeat (progress rewrite ?Hx, ?Hlx, ?Hl, ?Hh, ?Hxh, ?Hlh, ?ltb_irrefl);
    try reflexivity.
  all: repeat match goal with
  | H : PrimFloat.ltb _ _ = true |- _ => apply ltb_not_nan in H; destruct H
  end; try congruence.
Qed.

(** *** Exact identities used by the neutral stress scenario *)

Lemma Prim2SF_one :
  Prim2SF 1.0%float = S754_finite false 4503599627370496 (-52).
Proof. reflexivity. Qed.


Lemma mul_pow52 p : (p * 4503599627370496 = Pos.iter xO p 52)%positive.
Proof. rewrite Pos.mul_comm. reflexivity. Qed.

Lemma iter_shr_1_52 p :
  SpecFloat.iter_pos shr_1 52
    (shr_record_of_loc (Zpos (Pos.iter xO p 52)) loc_Exact)
  = Build_shr_record (Zpos p) false false.
Proof. reflexivity. Qed.

Lemma digits_shift p :
  Zpos (digits2_pos (Pos.iter xO p 52)) = Zpos (digits2_pos p) + 52.
Proof. cbn. lia. Qed.

(** Multiplying a representable number by 1.0 rounds to itself. *)
Lemma SFmul_one_r p :
  valid_binary p = true ->
  SF64mul p (S754_finite false 4503599627370496 (-52)) = p.
Proof.
  destruct p as [s|s| |s m e]; simpl; intros Hv.
  - now destruct s.
  - now destruct s.
  - reflexivity.
  - unfold SF64mul, SFmul. rewrite xorb_false_r.
    unfold bounded, canonical_mantissa in Hv.
    apply andb_true_iff in Hv as [Hc Hb].
    apply Z.eqb_eq in Hc.
    rewrite mul_pow52.
    unfold binary_round_aux, shr_fexp.
    unfold Zdigits2 at 1. rewrite digits_shift.
    replace (Z.pos (digits2_pos m) + 52 + (e + -52))
      with (Z.pos (digits2_pos m) + e) by lia.
    rewrite Hc.
    replace (e - (e + -52)) with 52 by lia.
    unfold shr at 1.
    rewrite iter_shr_1_52.
    cbn [shr_m loc_of_shr_record round_nearest_even].
    replace (e + -52 + 52) with e by lia.
    unfold Zdigits2. rewrite Hc, Z.sub_diag.
    cbn [shr shr_record_of_loc shr_m].
    rewrite Hb. reflexivity.
Qed.

Lemma mul_one_r x : (x * 1.0)%float = x.
Proof.
  apply Prim2SF_inj. rewrite mul_spec, Prim2SF_one.
  apply SFmul_one_r, Prim2SF_valid.
Qed.




(** *** Infinities and the clip *)




(** *** The order of the comparison *)

Lemma SFcompare_rank p q :
  p <> S754_nan -> q <> S754_nan ->
  SFcompare p q = Some (lex_compare (sf_rank p) (sf_rank q)).
Proof.
  intros Hp Hq.
  destruct p as [s|s| |s m e], q as [s'|s'| |s' m' e']; try congruence;
    try destruct s; try destruct s'; try reflexivity.
  unfold SFcompare, sf_rank, lex_compare. cbn [fst snd].
  rewrite Z.compare_refl, Z.compare_opp.
  rewrite (Z.compare_antisym e' e).
  destruct (e' ?= e); reflexivity.
Qed.

Lemma lex_compare_Lt a b : lex_compare a b = Lt <-> rank_lt a b.
Proof.
  unfold lex_compare, rank_lt.
  destruct (Z.compare_spec a.1.1 b.1.1), (Z.compare_spec a.1.2 b.1.2),
    (Z.compare_spec a.2 b.2);
    split; intros; try discriminate; try lia; try reflexivity.
Qed.

Lemma lex_compare_not_Gt a b :
  (lex_compare a b = Lt \/ lex_compare a b = Eq) <-> rank_le a b.
Proof.
  unfold lex_compare, rank_le.
  destruct (Z.compare_spec a.1.1 b.1.1), (Z.compare_spec a.1.2 b.1.2),
    (Z.compare_spec a.2 b.2);
    split; intros; try lia; try (now left); try (now right);
    try (destruct H2; discriminate).
Qed.

Lemma fcmp_rank x y :
  PrimFloat.is_nan x = false -> PrimFloat.is_nan y = false ->
  fcmp x y = Some (lex_compare (rank x) (rank y)).
Proof.
  intros Hx Hy. apply SFcompare_rank; now apply not_nan_spec.
Qed.

Lemma ltb_rank x y :
  PrimFloat.ltb x y = true <->
  PrimFloat.is_nan x = false /\ PrimFloat.is_nan y = false /\
  rank_lt (rank x) (rank y).
Proof.
  split.
  - intros H. destruct (ltb_not_nan _ _ H) as [Hx Hy].
    apply ltb_cmp in H. rewrite (fcmp_rank _ _ Hx Hy) in H.
    injection H as H. apply lex_compare_Lt in H. auto.
  - intros (Hx & Hy & H). apply ltb_cmp. rewrite (fcmp_rank _ _ Hx Hy).
    f_equal. now apply lex_compare_Lt.
Qed.

Lemma leb_rank x y :
  PrimFloat.leb x y = true <->
  PrimFloat.is_nan x = false /\ PrimFloat.is_nan y = false /\
  rank_le (rank x) (rank y).
Proof.
  split.
  - intros H. destruct (leb_not_nan _ _ H) as [Hx Hy].
    apply leb_cmp in H. rewrite (fcmp_rank _ _ Hx Hy) in H.
    repeat split; try assumption. apply lex_compare_not_Gt.
    destruct H as [H|H]; injection H as H; auto.
  - intros (Hx & Hy & H). apply leb_cmp. rewrite (fcmp_rank _ _ Hx Hy).
    apply lex_compare_not_Gt in H as [H|H]; rewrite H; auto.
Qed.

Lemma ltb_false_rank x y :
  PrimFloat.is_nan x = false -> PrimFloat.is_nan y = false ->
  PrimFloat.ltb x y = false -> rank_le (rank y) (rank x).
Proof.
  intros Hx Hy H.
  assert (Hn : ~ rank_lt (rank x) (rank y)).
  { intros Hlt. assert (PrimFloat.ltb x y = true) by (apply ltb_rank; auto).
    congruence. }
  unfold rank_lt, rank_le in *. lia.
Qed.

Lemma leb_trans x y z :
  PrimFloat.leb x y = true -> PrimFloat.leb y z = true ->
  PrimFloat.leb x z = true.
Proof.
  rewrite !leb_rank. unfold rank_le. intros (Hx & Hy & H1) (_ & Hz & H2).
  repeat split; try assumption. lia.
Qed.

(** *** [Series.clip] *)

(** With bounds in order the clip is the usual one. *)
Lemma series_clip_ordered x lo hi :
  PrimFloat.leb lo hi = true ->
  series_clip x lo hi =
    if PrimFloat.is_nan x then x
    else if PrimFloat.leb lo x
         then (if PrimFloat.leb x (py_max lo hi) then x else py_max lo hi)
         else (if PrimFloat.leb x (py_max lo hi) then lo else py_max lo hi).
Proof.
  intros Hle. destruct (leb_not_nan _ _ Hle) as [Hlo Hhi].
  unfold series_clip. rewrite Hlo, Hhi.
  assert (Hmin : py_min lo hi = lo).
  { unfold py_min. destruct (PrimFloat.ltb hi lo) eqn:E; [|reflexivity].
    apply ltb_rank in E as (_ & _ & E). apply leb_rank in Hle as (_ & _ & Hle).
    unfold rank_lt, rank_le in *. lia. }
  rewrite Hmin.
  destruct (PrimFloat.is_nan x); cbn [orb]; [reflexivity|].
  now destruct (PrimFloat.leb lo x).
Qed.

Lemma py_max_rank lo hi :
  PrimFloat.leb lo hi = true ->
  PrimFloat.is_nan (py_max lo hi) = false /\
  rank_le (rank hi) (rank (py_max lo hi)) /\
  rank_le (rank (py_max lo hi)) (rank hi).
Proof.
  intros Hle. destruct (leb_not_nan _ _ Hle) as [Hlo Hhi].
  unfold py_max. destruct (PrimFloat.ltb lo hi) eqn:E.
  - split; [exact Hhi|]. unfold rank_le. lia.
  - split; [exact Hlo|].
    apply (ltb_false_rank _ _ Hlo Hhi) in E.
    apply leb_rank in Hle as (_ & _ & Hle). auto.
Qed.

Lemma series_clip_within x lo hi :
  PrimFloat.leb lo hi = true -> PrimFloat.is_nan x = false ->
  within lo hi (series_clip x lo hi).
Proof.
  intros Hle Hx. rewrite (series_clip_ordered _ _ _ Hle), Hx.
  destruct (leb_not_nan _ _ Hle) as [Hlo Hhi].
  destruct (py_max_rank _ _ Hle) as (Hm & Hm1 & Hm2).
  pose proof Hle as Hr. apply leb_rank in Hr as (_ & _ & Hr).
  unfold within.
  destruct (PrimFloat.leb lo x) eqn:E1, (PrimFloat.leb x (py_max lo hi)) eqn:E2.
  - split; [exact E1|]. apply leb_rank in E2 as (_ & _ & E2).
    apply leb_rank. repeat split; try assumption.
    unfold rank_le in *. lia.
  - split; apply leb_rank; repeat split; try assumption;
      unfold rank_le in *; lia.
  - split; [now apply leb_refl | exact Hle].
  - split; apply leb_rank; repeat split; try assumption;
      unfold rank_le in *; lia.
Qed.

Lemma series_clip_is_nan x lo hi :
  PrimFloat.leb lo hi = true ->
  PrimFloat.is_nan (series_clip x lo hi) = PrimFloat.is_nan x.
Proof.
  intros Hle. rewrite (series_clip_ordered _ _ _ Hle).
  destruct (leb_not_nan _ _ Hle) as [Hlo Hhi].
  destruct (py_max_rank _ _ Hle) as (Hm & _).
  destruct (PrimFloat.is_nan x) eqn:Hx; [exact Hx|].
  destruct (PrimFloat.leb lo x), (PrimFloat.leb x (py_max lo hi)); congruence.
Qed.

Lemma series_clip_not_nan_within x lo hi :
  PrimFloat.leb lo hi = true ->
  PrimFloat.is_nan (series_clip x lo hi) = false ->
  within lo hi (series_clip x lo hi).
Proof.
  intros Hle Hn. rewrite series_clip_is_nan in Hn by assumption.
  now apply series_clip_within.
Qed.



(** *** The two clips and the clamp of the specification *)














(** *** The two zeros in a product *)




(** ** The small instance satisfies the interface *)

Lemma lcg_pick_elem u acc a p last :
  lcg_pick u acc a p last ∈ a \/ lcg_pick u acc a p last = last.
Proof.
  revert acc p last. induction a as [|x a IH]; intros acc p last; simpl.
  - now right.
  - destruct p as [|q p]; [left; apply list_elem_of_here|].
    destruct (PrimFloat.ltb u (acc + q)); [left; apply list_elem_of_here|].
    destruct (IH (acc + q)%float p x) as [H|H].
    + left. now apply list_elem_of_further.
    + left. rewrite H. apply list_elem_of_here.
Qed.

Lemma lcg_choice_elem (g : Z) (a : list string) (p : list float) :
  a <> [] -> (lcg_choice g a p).1 ∈ a.
Proof.
  intros Ha. unfold lcg_choice. simpl.
  destruct (lcg_pick_elem (lcg_unit g) 0.0%float a p (hd "" a)) as [H|H]; [exact H|].
  rewrite H. destruct a; [congruence|]. apply list_elem_of_here.
Qed.

Lemma lcg_trials_range n s p : 0 <= (lcg_trials n s p).1 <= Z.of_nat n.
Proof.
  revert s. induction n as [|n IH]; intros s; simpl; [lia|].
  specialize (IH (lcg_next s)).
  destruct (lcg_trials n (lcg_next s) p) as [k s']. simpl in *.
  destruct (PrimFloat.ltb (lcg_unit s) p); simpl; lia.
Qed.

Lemma lcg_binomial_range (g n : Z) (p : float) :
  0 <= n -> 0 <= (lcg_binomial g n p).1 <= n.
Proof.
  intros Hn. unfold lcg_binomial.
  pose proof (lcg_trials_range (Z.to_nat n) g p). lia.
Qed.

Lemma lcg_library_laws : LibraryLaws lcg_library.
Proof.
  split.
  - exact lcg_choice_elem.
  - exact lcg_binomial_range.
Qed.
(** ** Facts about the table helpers *)

Lemma map_lookup_Some {A B : Type} (f : A -> B) (l : list A) (i : nat) (x : A) :
  l !! i = Some x -> map f l !! i = Some (f x).
Proof. intros H. change (map f l) with (f <$> l). now rewrite list_lookup_fmap, H. Qed.

Lemma elem_of_map {A B : Type} (f : A -> B) (l : list A) (y : B) :
  y ∈ map f l <-> exists x, y = f x /\ x ∈ l.
Proof. change (map f l) with (f <$> l). apply list_elem_of_fmap. Qed.

Lemma elem_of_map_2 {A B : Type} (f : A -> B) (l : list A) (x : A) :
  x ∈ l -> f x ∈ map f l.
Proof. intros H. apply elem_of_map. eauto. Qed.

Lemma list_subseteq_dec_cases (required present : list string) :
  required ⊆ present \/ exists c, c ∈ required /\ (c ∉ present).
Proof.
  induction required as [|c required IH].
  - left. intros x Hx. inversion Hx.
  - destruct (decide (c ∈ present)) as [Hc|Hc].
    + destruct IH as [IH|(c' & H1 & H2)].
      * left. intros x Hx. apply elem_of_cons in Hx as [->|Hx]; auto.
      * right. exists c'. split; [now apply list_elem_of_further | exact H2].
    + right. exists c. split; [apply list_elem_of_here | exact Hc].
Qed.

Lemma has_columns_subseteq frame cols :
  has_columns frame cols = true -> cols ⊆ columns frame.
Proof.
  unfold has_columns. rewrite forallb_forall. intros H c Hc.
  apply list_elem_of_In in Hc. apply H in Hc. now apply bool_decide_eq_true in Hc.
Qed.

(** *** Columns *)

Lemma elem_of_add_column c name cols :
  c ∈ add_column name cols <-> c ∈ cols \/ c = name.
Proof.
  unfold add_column. case_bool_decide as H.
  - split; [auto|]. intros [Hc| ->]; assumption.
  - rewrite elem_of_app, list_elem_of_singleton. reflexivity.
Qed.

Lemma add_column_present name cols : name ∈ cols -> add_column name cols = cols.
Proof. intros H. unfold add_column. now rewrite bool_decide_eq_true_2. Qed.

Lemma add_column_absent name cols :
  name ∉ cols -> add_column name cols = cols ++ [name].
Proof. intros H. unfold add_column. now rewrite bool_decide_eq_false_2. Qed.

Lemma filter_ext_elem {A : Type} (P Q : A -> Prop)
    `{!forall x, Decision (P x)} `{!forall x, Decision (Q x)} (l : list A) :
  (forall x, x ∈ l -> P x <-> Q x) -> filter P l = filter Q l.
Proof.
  induction l as [|a l IH]; intros Hl; [reflexivity|].
  rewrite !filter_cons.
  rewrite IH by (intros x Hx; apply Hl; now apply list_elem_of_further).
  pose proof (Hl a (list_elem_of_here _ _)) as Ha.
  destruct (decide (P a)), (decide (Q a)); tauto.
Qed.

Lemma add_columns_layout names cols :
  NoDup names ->
  add_columns names cols = cols ++ filter (fun c => c ∉ cols) names.
Proof.
  intros Hnd. revert cols. unfold add_columns.
  induction Hnd as [|n names Hn _ IH]; intros cols; cbn [foldl].
  - now rewrite filter_nil, app_nil_r.
  - rewrite IH. destruct (decide (n ∈ cols)) as [Hin|Hout].
    + rewrite (add_column_present _ _ Hin).
      rewrite filter_cons_False by (intros H; apply H, Hin). reflexivity.
    + rewrite (add_column_absent _ _ Hout).
      rewrite filter_cons_True by exact Hout.
      rewrite <- app_assoc. cbn [app]. do 2 f_equal.
      apply filter_ext_elem. intros c Hc.
      rewrite elem_of_app, list_elem_of_singleton.
      split; [tauto|]. intros H [H1| ->]; [now apply H | now apply Hn].
Qed.

Lemma scored_columns_subseteq cols : score_columns ⊆ cols -> score_columns ⊆ scored_columns cols.
Proof.
  intros H c Hc. unfold scored_columns. rewrite !elem_of_add_column. auto.
Qed.

Lemma stressed_columns_subseteq cols : score_columns ⊆ cols -> score_columns ⊆ stressed_columns cols.
Proof.
  intros H c Hc. unfold stressed_columns. rewrite !elem_of_add_column. auto.
Qed.

Lemma scored_columns_idemp cols :
  scored_columns (scored_columns cols) = scored_columns cols.
Proof.
  unfold scored_columns.
  rewrite (add_column_present "pd_calibrated")
    by (rewrite !elem_of_add_column; auto).
  apply add_column_present. rewrite !elem_of_add_column. auto.
Qed.

Lemma stressed_columns_idemp cols :
  stressed_columns (stressed_columns cols) = stressed_columns cols.
Proof.
  unfold stressed_columns.
  rewrite (add_column_present "pd_stressed")
    by (rewrite !elem_of_add_column; auto).
  rewrite (add_column_present "lgd_stressed")
    by (rewrite !elem_of_add_column; auto).
  apply add_column_present. rewrite !elem_of_add_column. auto.
Qed.

Lemma scored_stressed_columns cols :
  scored_columns (stressed_columns (scored_columns cols))
  = stressed_columns (scored_columns cols).
Proof.
  unfold scored_columns at 1.
  rewrite (add_column_present "pd_calibrated")
    by (unfold stressed_columns, scored_columns; rewrite !elem_of_add_column; auto 10).
  apply add_column_present.
  unfold stressed_columns, scored_columns; rewrite !elem_of_add_column; auto 10.
Qed.

Lemma map_idemp {A : Type} (f : A -> A) (l : list A) :
  (forall x, f (f x) = f x) -> map f (map f l) = map f l.
Proof.
  intros H. rewrite map_map. apply map_ext. intros x. apply H.
Qed.

(** *** Repeated labels *)

Lemma label_count_app label cols1 cols2 :
  label_count label (cols1 ++ cols2)
  = (label_count label cols1 + label_count label cols2)%nat.
Proof. unfold label_count. now rewrite filter_app, length_app. Qed.

Lemma label_count_absent label cols :
  label ∉ cols -> label_count label cols = 0%nat.
Proof.
  intros H. unfold label_count.
  induction cols as [|c cols IH]; [reflexivity|].
  apply not_elem_of_cons in H as [Hne H].
  rewrite filter_cons_False by congruence. now apply IH.
Qed.

Lemma label_count_NoDup label cols :
  NoDup cols -> (label_count label cols <= 1)%nat.
Proof.
  intros H. unfold label_count. induction H as [|c cols Hc _ IH]; [cbn; lia|].
  destruct (decide (c = label)) as [->|Hne].
  - rewrite filter_cons_True by reflexivity. cbn [length].
    fold (label_count label cols). rewrite (label_count_absent _ _ Hc). lia.
  - now rewrite filter_cons_False by exact Hne.
Qed.

(** Assigning a column repeats no label that was not repeated. *)
Lemma label_count_add_column label name cols :
  (1 < label_count label (add_column name cols))%nat
  <-> (1 < label_count label cols)%nat.
Proof.
  unfold add_column. destruct (bool_decide (name ∈ cols)) eqn:E; [reflexivity|].
  apply bool_decide_eq_false in E. rewrite label_count_app.
  unfold label_count at 2. destruct (decide (name = label)) as [->|Hne].
  - rewrite filter_cons_True by reflexivity. cbn [filter length].
    rewrite (label_count_absent _ _ E). cbn. lia.
  - rewrite filter_cons_False by exact Hne. cbn. lia.
Qed.

Lemma repeated_add_column label name cols rws rws' :
  repeated label (mkFrame (add_column name cols) rws)
  = repeated label (mkFrame cols rws').
Proof.
  unfold repeated. cbn [columns].
  apply bool_decide_ext, label_count_add_column.
Qed.

Lemma repeated_columns label frame1 frame2 :
  columns frame1 = columns frame2 -> repeated label frame1 = repeated label frame2.
Proof. unfold repeated. now intros ->. Qed.

Lemma label_count_filter label (labels cols : list string) :
  label ∈ labels ->
  label_count label (filter (fun c => c ∈ labels) cols) = label_count label cols.
Proof.
  intros Hl. unfold label_count. induction cols as [|c cols IH]; [reflexivity|].
  destruct (decide (c = label)) as [->|Hne].
  - rewrite (filter_cons_True (fun c => c ∈ labels)) by exact Hl.
    rewrite !(filter_cons_True (fun c => c = label)) by reflexivity.
    cbn [length]. now rewrite IH.
  - rewrite (filter_cons_False (fun c => c = label) c cols) by exact Hne.
    destruct (decide (c ∈ labels)) as [Hc|Hc].
    + rewrite (filter_cons_True (fun c => c ∈ labels)) by exact Hc.
      now rewrite (filter_cons_False (fun c => c = label)) by exact Hne.
    + now rewrite (filter_cons_False (fun c => c ∈ labels)) by exact Hc.
Qed.

Lemma label_count_present label cols :
  label ∈ cols -> (0 < label_count label cols)%nat.
Proof.
  intros H. unfold label_count. induction cols as [|c cols IH]; [inversion H|].
  destruct (decide (c = label)) as [->|Hne].
  - rewrite filter_cons_True by reflexivity. cbn. lia.
  - rewrite filter_cons_False by exact Hne. apply IH.
    apply elem_of_cons in H as [->|H]; [congruence|exact H].
Qed.

Lemma NoDup_label_counts cols :
  (forall label, label ∈ cols -> (label_count label cols <= 1)%nat) -> NoDup cols.
Proof.
  induction cols as [|c cols IH]; intros H; [constructor|].
  constructor.
  - intros Hc. pose proof (H c (list_elem_of_here _ _)) as Hle.
    pose proof (label_count_present _ _ Hc) as Hpos.
    unfold label_count in Hle. rewrite filter_cons_True in Hle by reflexivity.
    cbn [length] in Hle. fold (label_count c cols) in Hle. lia.
  - apply IH. intros label Hl.
    pose proof (H label (list_elem_of_further _ _ _ Hl)) as Hle.
    unfold label_count in Hle |- *.
    destruct (decide (c = label)) as [->|Hne].
    + rewrite filter_cons_True in Hle by reflexivity. cbn [length] in Hle. lia.
    + now rewrite filter_cons_False in Hle by exact Hne.
Qed.

(** The labels are distinct exactly when none of them is repeated. *)
Lemma distinct_labels_repeated labels frame :
  distinct_labels labels frame <->
  forall label, label ∈ labels -> repeated label frame = false.
Proof.
  unfold distinct_labels, repeated. split.
  - intros H label Hl. apply bool_decide_eq_false.
    rewrite <- (label_count_filter _ _ _ Hl).
    pose proof (label_count_NoDup label _ H). lia.
  - intros H. apply NoDup_label_counts. intros label Hl.
    apply list_elem_of_filter in Hl as [Hl _].
    rewrite (label_count_filter _ _ _ Hl).
    specialize (H label Hl). apply bool_decide_eq_false in H. lia.
Qed.

Lemma NoDup_distinct_labels labels frame :
  NoDup (columns frame) -> distinct_labels labels frame.
Proof. intros H. now apply NoDup_filter. Qed.

Lemma distinct_labels_elem labels frame label :
  distinct_labels labels frame -> label ∈ labels -> repeated label frame = false.
Proof. rewrite distinct_labels_repeated. auto. Qed.

Lemma distinct_labels_subseteq labels labels' frame :
  labels' ⊆ labels -> distinct_labels labels frame -> distinct_labels labels' frame.
Proof. rewrite !distinct_labels_repeated. auto. Qed.

Lemma iterate_column {A : Type} label (field : Row -> A) frame :
  repeated label frame = false ->
  iterate label field frame = map (fun r => inr (field r)) (rows frame).
Proof. unfold iterate. now intros ->. Qed.

Lemma column_ok {A : Type} label (field : Row -> A) frame :
  repeated label frame = false ->
  column label field frame = inr (map field (rows frame)).
Proof. unfold column. now intros ->. Qed.

Lemma column_inr {A : Type} label (field : Row -> A) frame values :
  column label field frame = inr values ->
  repeated label frame = false /\ values = map field (rows frame).
Proof.
  unfold column. destruct (repeated label frame); [discriminate|].
  intros [= <-]. auto.
Qed.

(** *** Loops *)

Lemma try_map_inr {A B : Type} (f : A -> exn + B) (l : list A) (bs : list B) :
  try_map f l = inr bs -> Forall2 (fun a b => f a = inr b) l bs.
Proof.
  revert bs. induction l as [|a l IH]; intros bs; cbn [try_map].
  - intros [= <-]. constructor.
  - destruct (f a) as [e|b] eqn:E; [discriminate|].
    destruct (try_map f l) as [e|bs']; [discriminate|].
    intros [= <-]. constructor; [exact E | now apply IH].
Qed.

Lemma try_map_map {A B : Type} (f : A -> exn + B) (g : A -> B) (l : list A) :
  (forall a, a ∈ l -> f a = inr (g a)) -> try_map f l = inr (map g l).
Proof.
  induction l as [|a l IH]; intros H; [reflexivity|]. cbn [try_map map].
  rewrite (H a) by apply list_elem_of_here.
  rewrite IH; [reflexivity|]. intros a' Ha'. apply H. now apply list_elem_of_further.
Qed.


(** *** [_require_columns] *)

Lemma sorted_elements_spec (required present : list string) :
  sorted_missing required present
    (sorted (elements ((list_to_set required : gset string)
                         ∖ list_to_set present))).
Proof.
  unfold sorted_missing, sorted. split; [|split].
  - apply StronglySorted_merge_sort; apply _.
  - rewrite merge_sort_Permutation. apply NoDup_elements.
  - intros c. rewrite merge_sort_Permutation, elem_of_elements.
    rewrite elem_of_difference, !elem_of_list_to_set. reflexivity.
Qed.

Lemma require_columns_ok frame cols :
  cols ⊆ columns frame -> _require_columns frame cols = inr tt.
Proof.
  intros Hsub. unfold _require_columns.
  destruct (decide _) as [_|Hne]; [reflexivity|].
  exfalso. apply Hne. apply set_eq. intros c.
  rewrite elem_of_difference, !elem_of_list_to_set. split.
  - intros [Hc Hn]. exfalso. apply Hn, Hsub, Hc.
  - intros Hc. inversion Hc.
Qed.

Lemma require_columns_missing frame cols c :
  c ∈ cols -> c ∉ columns frame ->
  exists l, _require_columns frame cols = inl (MissingColumns l) /\
            sorted_missing cols (columns frame) l.
Proof.
  intros Hc Hn. unfold _require_columns.
  destruct (decide _) as [He|_].
  - exfalso. assert (c ∈ (∅ : gset string)) as Habs; [|inversion Habs].
    rewrite <- He, elem_of_difference, !elem_of_list_to_set. tauto.
  - eexists. split; [reflexivity | apply sorted_elements_spec].
Qed.

Lemma require_columns_cases frame cols :
  (cols ⊆ columns frame /\ _require_columns frame cols = inr tt) \/
  (exists c l, c ∈ cols /\ (c ∉ columns frame) /\
     _require_columns frame cols = inl (MissingColumns l) /\
     sorted_missing cols (columns frame) l).
Proof.
  destruct (list_subseteq_dec_cases cols (columns frame)) as [Hsub|(c & Hc & Hn)].
  - left. split; [exact Hsub | now apply require_columns_ok].
  - right. destruct (require_columns_missing frame cols c Hc Hn) as (l & Hl & Hs).
    exists c, l. auto.
Qed.

Lemma require_columns_inr frame cols :
  _require_columns frame cols = inr tt -> cols ⊆ columns frame.
Proof.
  intros H. destruct (require_columns_cases frame cols)
    as [[Hsub _]|(c & l & _ & _ & Hl & _)]; [exact Hsub|congruence].
Qed.

Section Facts.

Context `{Lib : Library}.

(** ** The monad *)

Lemma bind_inr {A B : Type} (c : M A) (k : A -> M B) self a self' :
  c self = (inr a, self') -> bind c k self = k a self'.
Proof. unfold bind. now intros ->. Qed.

Lemma bind_inl {A B : Type} (c : M A) (k : A -> M B) self e self' :
  c self = (inl e, self') -> bind c k self = (inl e, self').
Proof. unfold bind. now intros ->. Qed.

(** *** [score_portfolio] and [run_stress_scenario], row by row *)

Lemma scored_rows_zip (scaled : list float) (rws : list Row) :
  length scaled = length rws ->
  zip_with set_expected_loss
    (zip_with (fun el p => (el * p)%float)
       (zip_with (fun e l => (e * l)%float)
          (map ead (zip_with set_pd_calibrated scaled rws))
          (map lgd (zip_with set_pd_calibrated scaled rws)))
       (map pd_calibrated (zip_with set_pd_calibrated scaled rws)))
    (zip_with set_pd_calibrated scaled rws)
  = zip_with with_pd_calibrated scaled rws.
Proof.
  revert rws. induction scaled as [|v scaled IH]; intros [|r rws] Hlen;
    try reflexivity; try discriminate.
  cbn [zip_with map]. f_equal. apply IH. cbn in Hlen. lia.
Qed.

Lemma scale_pd_values self (r : Row) :
  scale_pd self (inr (segment r), inr (pd_estimate r))
  = inr (np_clip (pd_estimate r * default 1.0 (pd_scalers self !! segment r))%float
           (pd_floor self) (pd_cap self)).
Proof. reflexivity. Qed.

Lemma scale_pd_clipped self item v :
  scale_pd self item = inr v ->
  exists x, v = np_clip x (pd_floor self) (pd_cap self).
Proof.
  unfold scale_pd. destruct item.2; [discriminate|]. intros [= <-]. eauto.
Qed.

(** The scaled PDs of a table whose [segment] and [pd_estimate] are
    columns. *)
Lemma scaled_pd_columns portfolio self :
  repeated "segment" portfolio = false ->
  repeated "pd_estimate" portfolio = false ->
  try_map (scale_pd self)
    (zip (iterate "segment" segment portfolio)
         (iterate "pd_estimate" pd_estimate portfolio))
  = inr (map (fun r =>
           np_clip (pd_estimate r * default 1.0 (pd_scalers self !! segment r))%float
                   (pd_floor self) (pd_cap self)) (rows portfolio)).
Proof.
  intros Hs Hp. rewrite (iterate_column _ _ _ Hs), (iterate_column _ _ _ Hp).
  unfold zip. induction (rows portfolio) as [|r l IH]; [reflexivity|].
  cbn [map zip_with try_map]. rewrite scale_pd_values. now rewrite IH.
Qed.

Lemma scored_rows_map self (rws : list Row) :
  zip_with with_pd_calibrated
    (map (fun r =>
       np_clip (pd_estimate r * default 1.0 (pd_scalers self !! segment r))%float
               (pd_floor self) (pd_cap self)) rws) rws
  = map (scored_row self) rws.
Proof.
  induction rws as [|r l IH]; [reflexivity|]. cbn [map zip_with]. now rewrite IH.
Qed.

(** What a call of [score_portfolio] that returns has returned. *)
Lemma score_portfolio_returned portfolio self scored self' :
  score_portfolio portfolio self = (inr scored, self') ->
  self' = self /\
  score_columns ⊆ columns portfolio /\
  exists scaled,
    try_map (scale_pd self)
      (zip (iterate "segment" segment portfolio)
           (iterate "pd_estimate" pd_estimate portfolio)) = inr scaled /\
    length scaled = length (rows portfolio) /\
    distinct_labels ["ead"; "lgd"; "pd_calibrated"] portfolio /\
    scored = mkFrame (scored_columns (columns portfolio))
               (zip_with with_pd_calibrated scaled (rows portfolio)).
Proof.
  unfold score_portfolio, bind, of_result, get_self, ret.
  destruct (_require_columns portfolio score_columns) as [e|[]] eqn:Hreq;
    [discriminate|].
  destruct (try_map _ _) as [e|scaled] eqn:Hscaled; [discriminate|].
  unfold assign_list.
  destruct (bool_decide (length scaled = length (rows portfolio))) eqn:Hlen;
    [|discriminate].
  apply bool_decide_eq_true in Hlen.
  destruct (column "ead" _ _) as [e|eads] eqn:He; [discriminate|].
  destruct (column "lgd" _ _) as [e|lgds] eqn:Hl; [discriminate|].
  destruct (column "pd_calibrated" _ _) as [e|pds] eqn:Hp; [discriminate|].
  apply column_inr in He as [He ->]. apply column_inr in Hl as [Hl ->].
  apply column_inr in Hp as [Hp ->].
  intros [= <- <-]. split; [reflexivity|].
  split; [now apply require_columns_inr|].
  exists scaled. split; [reflexivity|]. split; [exact Hlen|]. split.
  - unfold assign in He, Hl, Hp.
    rewrite (repeated_add_column _ _ _ _ (rows portfolio)) in He.
    rewrite (repeated_add_column _ _ _ _ (rows portfolio)) in Hl.
    rewrite (repeated_add_column _ _ _ _ (rows portfolio)) in Hp.
    apply distinct_labels_repeated. intros label Hlabel.
    repeat (apply elem_of_cons in Hlabel as [->|Hlabel]);
      [now destruct portfolio..|inversion Hlabel].
  - unfold assign, scored_columns. cbn [columns rows]. f_equal.
    now apply scored_rows_zip.
Qed.

Lemma score_portfolio_ok portfolio self :
  score_columns ⊆ columns portfolio ->
  distinct_labels score_reads portfolio ->
  score_portfolio portfolio self =
    (inr (mkFrame (scored_columns (columns portfolio))
                  (map (scored_row self) (rows portfolio))), self).
Proof.
  intros Hcols Hd.
  assert (Hs := distinct_labels_elem _ _ "segment" Hd ltac:(set_solver)).
  assert (Hp := distinct_labels_elem _ _ "pd_estimate" Hd ltac:(set_solver)).
  assert (He := distinct_labels_elem _ _ "ead" Hd ltac:(set_solver)).
  assert (Hl := distinct_labels_elem _ _ "lgd" Hd ltac:(set_solver)).
  assert (Hc := distinct_labels_elem _ _ "pd_calibrated" Hd ltac:(set_solver)).
  unfold score_portfolio, bind, of_result, get_self, ret.
  rewrite (require_columns_ok _ _ Hcols), (scaled_pd_columns _ _ Hs Hp).
  unfold assign_list. rewrite length_map, bool_decide_eq_true_2 by reflexivity.
  unfold assign.
  rewrite !column_ok
    by (rewrite (repeated_add_column _ _ _ _ (rows portfolio));
        now destruct portfolio).
  unfold scored_columns. cbn [columns rows].
  rewrite scored_rows_zip by now rewrite length_map.
  now rewrite scored_rows_map.
Qed.


Lemma score_portfolio_state portfolio self :
  (score_portfolio portfolio self).2 = self.
Proof.
  unfold score_portfolio, bind, of_result, get_self, ret.
  repeat match goal with
  | |- context [match ?x with _ => _ end] => destruct x
  end; reflexivity.
Qed.




(** Every scaled PD comes out of the clip. *)
Lemma score_portfolio_clipped portfolio self scored self' r :
  score_portfolio portfolio self = (inr scored, self') ->
  r ∈ rows scored ->
  exists x, pd_calibrated r = np_clip x (pd_floor self) (pd_cap self).
Proof.
  intros H Hr.
  destruct (score_portfolio_returned _ _ _ _ H)
    as (_ & _ & scaled & Hscaled & _ & _ & ->).
  cbn [rows] in Hr.
  apply elem_of_lookup_zip_with_1 in Hr as (i & v & r0 & -> & Hv & _).
  apply try_map_inr in Hscaled.
  destruct (Forall2_lookup_r _ _ _ _ _ Hscaled Hv) as (item & _ & Hitem).
  exact (scale_pd_clipped _ _ _ Hitem).
Qed.

Lemma stressed_rows_zip (pds lgds : list float) (rws : list Row) :
  length pds = length rws -> length lgds = length rws ->
  zip_with set_expected_loss_stressed
    (zip_with (fun el p => (el * p)%float)
       (zip_with (fun e l => (e * l)%float)
          (map ead (zip_with set_lgd_stressed lgds
                      (zip_with set_pd_stressed pds rws)))
          (map lgd_stressed (zip_with set_lgd_stressed lgds
                               (zip_with set_pd_stressed pds rws))))
       (map pd_stressed (zip_with set_lgd_stressed lgds
                           (zip_with set_pd_stressed pds rws))))
    (zip_with set_lgd_stressed lgds (zip_with set_pd_stressed pds rws))
  = zip_with (fun pl r =>
      set_expected_loss_stressed (ead r * pl.2 * pl.1)%float
        (set_lgd_stressed pl.2 (set_pd_stressed pl.1 r)))
      (zip pds lgds) rws.
Proof.
  revert lgds rws. induction pds as [|p pds IH]; intros [|l lgds] [|r rws] H1 H2;
    try reflexivity; try discriminate.
  cbn [zip zip_with map]. f_equal. apply IH; cbn in H1, H2; lia.
Qed.

Lemma stressed_rows_map self m s k (rws : list Row) :
  zip_with (fun pl r =>
      set_expected_loss_stressed (ead r * pl.2 * pl.1)%float
        (set_lgd_stressed pl.2 (set_pd_stressed pl.1 r)))
    (zip (map (fun p => series_clip (p * m + k * p)%float
                          (pd_floor self) (pd_cap self))
              (map pd_calibrated rws))
         (map (fun l => series_clip (l + s)%float 0.0 1.0) (map lgd rws)))
    rws
  = map (stressed_row self m s k) rws.
Proof.
  unfold zip. induction rws as [|r l IH]; [reflexivity|].
  cbn [map zip_with]. now rewrite IH.
Qed.

(** What [run_stress_scenario] does once the scorer has returned. *)
Lemma run_stress_scenario_scored portfolio pd_multiplier lgd_shift macro_shock
    self scored :
  score_portfolio portfolio self = (inr scored, self) ->
  distinct_labels stress_reads portfolio ->
  run_stress_scenario portfolio pd_multiplier lgd_shift macro_shock self =
    (inr (mkFrame (stressed_columns (columns scored))
            (map (stressed_row self pd_multiplier lgd_shift
                    (default 0.0%float macro_shock)) (rows scored))), self).
Proof.
  intros Hscore Hd.
  destruct (score_portfolio_returned _ _ _ _ Hscore)
    as (_ & _ & scaled & _ & _ & Hd' & Hscored).
  assert (Hcols : columns scored = scored_columns (columns portfolio))
    by now rewrite Hscored.
  assert (Hrep : forall label,
            repeated label portfolio = false -> repeated label scored = false).
  { intros label H. rewrite <- H. destruct scored as [cols rws], portfolio as [cols' rws'].
    cbn [columns] in Hcols. subst cols. unfold scored_columns.
    now rewrite !(repeated_add_column _ _ _ _ rws'). }
  assert (He := Hrep _ (distinct_labels_elem _ _ "ead" Hd' ltac:(set_solver))).
  assert (Hl := Hrep _ (distinct_labels_elem _ _ "lgd_stressed" Hd ltac:(set_solver))).
  assert (Hp := Hrep _ (distinct_labels_elem _ _ "pd_stressed" Hd ltac:(set_solver))).
  unfold run_stress_scenario.
  unfold bind at 1. unfold get_self at 1.
  rewrite (bind_inr _ _ _ _ _ Hscore).
  unfold bind, of_result, ret, assign. cbn [columns rows].
  rewrite !column_ok
    by (rewrite !(repeated_add_column _ _ _ _ (rows scored));
        now destruct scored).
  unfold stressed_columns. cbn [columns rows].
  rewrite stressed_rows_zip by now rewrite !length_map.
  now rewrite stressed_rows_map.
Qed.

Lemma run_stress_scenario_ok portfolio pd_multiplier lgd_shift macro_shock self :
  score_columns ⊆ columns portfolio ->
  distinct_labels (score_reads ++ stress_reads) portfolio ->
  run_stress_scenario portfolio pd_multiplier lgd_shift macro_shock self =
    (inr (mkFrame (stressed_columns (scored_columns (columns portfolio)))
            (map (stressed_row self pd_multiplier lgd_shift (default 0.0%float macro_shock))
                 (map (scored_row self) (rows portfolio)))), self).
Proof.
  intros Hcols Hd.
  assert (Hd1 : distinct_labels score_reads portfolio).
  { apply (distinct_labels_subseteq (score_reads ++ stress_reads)); [|exact Hd].
    intros c Hc. apply elem_of_app. now left. }
  assert (Hd2 : distinct_labels stress_reads portfolio).
  { apply (distinct_labels_subseteq (score_reads ++ stress_reads)); [|exact Hd].
    intros c Hc. apply elem_of_app. now right. }
  now rewrite (run_stress_scenario_scored _ _ _ _ _ _
                 (score_portfolio_ok _ _ Hcols Hd1) Hd2).
Qed.

Lemma run_stress_scenario_state portfolio pd_multiplier lgd_shift macro_shock self :
  (run_stress_scenario portfolio pd_multiplier lgd_shift macro_shock self).2 = self.
Proof.
  unfold run_stress_scenario. unfold bind at 1. unfold get_self at 1.
  unfold bind at 1.
  pose proof (score_portfolio_state portfolio self) as Hs.
  destruct (score_portfolio portfolio self) as [[e|scored] self']; simpl in *;
    subst; [reflexivity|].
  unfold bind, of_result, ret.
  repeat match goal with
  | |- context [match ?x with _ => _ end] => destruct x
  end; reflexivity.
Qed.

(** What a call of [run_stress_scenario] that returns has returned. *)
Lemma run_stress_scenario_returned portfolio pd_multiplier lgd_shift macro_shock
    self stressed self' :
  run_stress_scenario portfolio pd_multiplier lgd_shift macro_shock self
    = (inr stressed, self') ->
  self' = self /\
  exists scored,
    score_portfolio portfolio self = (inr scored, self) /\
    stressed = mkFrame (stressed_columns (columns scored))
                 (map (stressed_row self pd_multiplier lgd_shift
                         (default 0.0%float macro_shock)) (rows scored)).
Proof.
  intros H.
  pose proof (run_stress_scenario_state portfolio pd_multiplier lgd_shift
                macro_shock self) as Hst.
  rewrite H in Hst. cbn in Hst. subst self'. split; [reflexivity|].
  pose proof (score_portfolio_state portfolio self) as Hs.
  destruct (score_portfolio portfolio self) as [[e|scored] self1] eqn:Hscore;
    cbn in Hs; subst self1.
  - unfold run_stress_scenario in H. unfold bind at 1 in H.
    unfold get_self at 1 in H. rewrite (bind_inl _ _ _ _ _ Hscore) in H.
    discriminate.
  - exists scored. split; [reflexivity|].
    assert (Hd : distinct_labels stress_reads portfolio).
    { destruct (score_portfolio_returned _ _ _ _ Hscore)
        as (_ & _ & scaled & _ & _ & _ & Hscored).
      assert (Hcols : columns scored = scored_columns (columns portfolio))
        by now rewrite Hscored.
      unfold run_stress_scenario in H. unfold bind at 1 in H.
      unfold get_self at 1 in H. rewrite (bind_inr _ _ _ _ _ Hscore) in H.
      unfold bind, of_result, ret, assign in H. cbn [columns rows] in H.
      destruct (column "ead" _ _) as [e|eads]; [discriminate|].
      destruct (column "lgd_stressed" _ _) as [e|lgds] eqn:Hl; [discriminate|].
      destruct (column "pd_stressed" _ _) as [e|pds] eqn:Hp; [discriminate|].
      apply column_inr in Hl as [Hl _]. apply column_inr in Hp as [Hp _].
      rewrite !(repeated_add_column _ _ _ _ (rows portfolio)) in Hl.
      rewrite !(repeated_add_column _ _ _ _ (rows portfolio)) in Hp.
      rewrite Hcols in Hl, Hp. unfold scored_columns in Hl, Hp.
      rewrite !(repeated_add_column _ _ _ _ (rows portfolio)) in Hl.
      rewrite !(repeated_add_column _ _ _ _ (rows portfolio)) in Hp.
      apply distinct_labels_repeated. intros label Hlabel.
      repeat (apply elem_of_cons in Hlabel as [->|Hlabel]);
        [now destruct portfolio..|inversion Hlabel]. }
    rewrite (run_stress_scenario_scored _ _ _ _ _ _ Hscore Hd) in H.
    now injection H as <-.
Qed.

End Facts.

Section CalibrationFacts.

Context `{Lib : Library}.

Lemma with_pd_scalers_same self : with_pd_scalers (pd_scalers self) self = self.
Proof. now destruct self. Qed.

Lemma with_rng_same self : with_rng (rng self) self = self.
Proof. now destruct self. Qed.

Lemma sorted_elem l x : x ∈ sorted l <-> x ∈ l.
Proof. unfold sorted. now rewrite merge_sort_Permutation. Qed.

Lemma sorted_NoDup l : NoDup l -> NoDup (sorted l).
Proof. unfold sorted. now rewrite merge_sort_Permutation. Qed.

Lemma groupby_segment_keys frame :
  map fst (groupby_segment frame) = sorted (remove_dups (map segment (rows frame))).
Proof.
  unfold groupby_segment. rewrite map_map. simpl. apply map_id.
Qed.

Lemma groupby_segment_keys_NoDup frame : NoDup (map fst (groupby_segment frame)).
Proof.
  rewrite groupby_segment_keys. apply sorted_NoDup, NoDup_remove_dups.
Qed.

Lemma groupby_segment_key_elem frame seg :
  seg ∈ map fst (groupby_segment frame) <-> seg ∈ map segment (rows frame).
Proof.
  rewrite groupby_segment_keys, sorted_elem. apply elem_of_remove_dups.
Qed.


Lemma column_group {A : Type} label (field : Row -> A) history frame :
  repeated label history = false ->
  column label field (mkFrame (columns history) frame) = inr (map field frame).
Proof. intros H. apply column_ok. now rewrite <- H. Qed.

Lemma for_each_calibrate history groups self :
  repeated "pd_estimate" history = false ->
  for_each (calibrate_segment (columns history)) groups self =
    (inr (map group_summary groups),
     with_pd_scalers (calibrated_scalers (pd_scalers self) groups) self).
Proof.
  intros Hp. revert self. induction groups as [|[seg frame] groups IH]; intros self.
  - simpl. unfold ret. now rewrite with_pd_scalers_same.
  - cbn [for_each]. unfold bind at 1.
    unfold calibrate_segment at 1. unfold bind at 1, of_result.
    rewrite (column_group _ _ _ _ Hp).
    unfold bind at 1, set_pd_scaler, ret.
    unfold bind. rewrite IH. destruct self. reflexivity.
Qed.

(** With [pd_estimate] repeated the first group raises, before anything is
    stored. *)
Lemma for_each_calibrate_repeated history group groups self :
  repeated "pd_estimate" history = true ->
  for_each (calibrate_segment (columns history)) (group :: groups) self =
    (inl (RepeatedLabel "pd_estimate"), self).
Proof.
  intros Hp. destruct group as [seg frame]. cbn [for_each]. unfold bind at 1.
  unfold calibrate_segment at 1. unfold bind at 1, of_result.
  unfold column. change (repeated "pd_estimate" (mkFrame (columns history) frame))
    with (repeated "pd_estimate" history). now rewrite Hp.
Qed.

Lemma calibrated_scalers_other scalers groups seg :
  seg ∉ map fst groups -> calibrated_scalers scalers groups !! seg = scalers !! seg.
Proof.
  revert scalers. induction groups as [|g groups IH]; intros scalers Hn; [reflexivity|].
  cbn [map] in Hn. apply not_elem_of_cons in Hn as [Hne Hn].
  unfold calibrated_scalers. cbn [foldl]. fold (calibrated_scalers (<[g.1 := group_scaler g]> scalers) groups).
  rewrite (IH _ Hn). now apply lookup_insert_ne.
Qed.

Lemma calibrated_scalers_group scalers groups g :
  NoDup (map fst groups) -> g ∈ groups ->
  calibrated_scalers scalers groups !! g.1 = Some (group_scaler g).
Proof.
  revert scalers. induction groups as [|g' groups IH]; intros scalers Hnd Hin.
  - inversion Hin.
  - cbn [map] in Hnd. apply NoDup_cons in Hnd as [Hfresh Hnd].
    unfold calibrated_scalers. cbn [foldl].
    fold (calibrated_scalers (<[g'.1 := group_scaler g']> scalers) groups).
    apply elem_of_cons in Hin as [->|Hin].
    + rewrite (calibrated_scalers_other _ _ _ Hfresh). apply lookup_insert_eq.
    + now apply IH.
Qed.

Lemma calibrate_pd_ok history self :
  calibrate_columns ⊆ columns history ->
  repeated "segment" history = false ->
  repeated "pd_estimate" history = false ->
  calibrate_pd history self =
    (inr (map group_summary (groupby_segment history)),
     with_pd_scalers
       (calibrated_scalers (pd_scalers self) (groupby_segment history)) self).
Proof.
  intros Hcols Hs Hp. unfold calibrate_pd, bind, of_result, groupby.
  rewrite (require_columns_ok _ _ Hcols), Hs. now apply for_each_calibrate.
Qed.

Lemma calibrate_pd_distinct history self :
  calibrate_columns ⊆ columns history ->
  distinct_labels calibrate_columns history ->
  calibrate_pd history self =
    (inr (map group_summary (groupby_segment history)),
     with_pd_scalers
       (calibrated_scalers (pd_scalers self) (groupby_segment history)) self).
Proof.
  intros Hcols Hd. apply calibrate_pd_ok; [exact Hcols| |];
    apply (distinct_labels_elem _ _ _ Hd); set_solver.
Qed.

Lemma calibrate_pd_error history self e :
  _require_columns history calibrate_columns = inl e ->
  calibrate_pd history self = (inl e, self).
Proof. intros H. unfold calibrate_pd, bind, of_result. now rewrite H. Qed.

(** The ways [calibrate_pd] ends: with the summary of the groups and their
    scalers stored; or with an exception and the instance as it was, the
    error of [_require_columns] or, every required column in place, another
    one, and then some label it reads is repeated. *)
Lemma calibrate_pd_cases history self :
  (calibrate_columns ⊆ columns history /\
   calibrate_pd history self =
     (inr (map group_summary (groupby_segment history)),
      with_pd_scalers
        (calibrated_scalers (pd_scalers self) (groupby_segment history)) self)) \/
  (exists c l, c ∈ calibrate_columns /\ (c ∉ columns history) /\
     calibrate_pd history self = (inl (MissingColumns l), self) /\
     sorted_missing calibrate_columns (columns history) l) \/
  (exists label,
     calibrate_columns ⊆ columns history /\
     calibrate_pd history self = (inl (RepeatedLabel label), self) /\
     ~ distinct_labels calibrate_columns history).
Proof.
  destruct (require_columns_cases history calibrate_columns)
    as [[Hsub Hreq]|(c & l & Hc & Hn & Hl & Hsm)].
  - destruct (repeated "segment" history) eqn:Hs.
    { right. right. exists "segment". split; [exact Hsub|]. split.
      - unfold calibrate_pd, bind, of_result, groupby. now rewrite Hreq, Hs.
      - intros Hd. pose proof (distinct_labels_elem _ _ "segment" Hd
                                 ltac:(set_solver)). congruence. }
    destruct (repeated "pd_estimate" history) eqn:Hp.
    + destruct (groupby_segment history) as [|group groups] eqn:Hg.
      * left. split; [exact Hsub|].
        unfold calibrate_pd, bind, of_result, groupby. rewrite Hreq, Hs, Hg.
        cbn. unfold ret. now rewrite with_pd_scalers_same.
      * right. right. exists "pd_estimate". split; [exact Hsub|]. split.
        -- unfold calibrate_pd, bind, of_result, groupby. rewrite Hreq, Hs, Hg.
           now apply for_each_calibrate_repeated.
        -- intros Hd. pose proof (distinct_labels_elem _ _ "pd_estimate" Hd
                                    ltac:(set_solver)). congruence.
    + left. split; [exact Hsub | now apply calibrate_pd_ok].
  - right. left. exists c, l. split; [exact Hc|]. split; [exact Hn|].
    split; [now apply calibrate_pd_error | exact Hsm].
Qed.

End CalibrationFacts.
(** ** The sample tables *)

Lemma sample_portfolio_columns : score_columns ⊆ columns sample_portfolio.
Proof. apply has_columns_subseteq. reflexivity. Qed.

Lemma sample_portfolio_labels : NoDup (columns sample_portfolio).
Proof. apply (bool_decide_unpack _). vm_compute. exact I. Qed.



(** ** Missing columns *)

Section MissingColumns.

Context `{Lib : Library}.


End MissingColumns.

(** The error for a table without [segment] and [default_flag]. *)
Example missing_columns_sample :
  (calibrate_pd sample_incomplete sample_model).1
  = inl (MissingColumns ["default_flag"; "segment"]).
Proof. vm_compute. reflexivity. Qed.



(** ** Scoring *)

Section Scoring.

Context `{Lib : Library}.



End Scoring.



(** The clamp at work on the sample portfolio: the third account's
    [0.9 * 1.0] is above the cap. *)
Example score_portfolio_clamp_sample :
  exists scored,
    (score_portfolio sample_portfolio sample_model).1 = inr scored /\
    map pd_calibrated (rows scored) = [0.004; 0.05; 0.4]%float /\
    map (fun r => clamp (pd_estimate r) 0.0005 0.40) (rows sample_portfolio)
    = [0.004; 0.05; 0.4]%float.
Proof.
  eexists. split; [vm_compute; reflexivity|]. split; vm_compute; reflexivity.
Qed.


(** ** Calibration *)

Section Calibration.

Context `{Lib : Library}.


(** C8: [calibrate_pd] leaves the scaler of every segment that does not occur
    in the panel's [segment] column as it was, entry or no entry. *)
Theorem calibrate_pd_other_segments (history : DataFrame) (self : CreditRiskModel)
    (seg : string) :
  seg ∉ map segment (rows history) ->
  pd_scalers (calibrate_pd history self).2 !! seg = pd_scalers self !! seg.
Proof.
  intros Hseg.
  destruct (calibrate_pd_cases history self)
    as [[_ H]|[(c & l & _ & _ & H & _)|(label & _ & H & _)]]; rewrite H;
    [|reflexivity|reflexivity].
  destruct self. cbn [snd pd_scalers with_pd_scalers].
  apply calibrated_scalers_other. now rewrite groupby_segment_key_elem.
Qed.

End Calibration.



(** The summary table of the sample panel: the subprime accounts defaulted
    once in two, eleven times the rate expected, and their scaler is
    clamped to 4; no prime account defaulted, and their scaler is clamped
    to 0.25. *)
Example calibrate_pd_sample :
  (calibrate_pd sample_history sample_model).1
  = inr [mkCalibrationRow "Prime" 0.005 0 0.25;
         mkCalibrationRow "Subprime" 0.045 0.5 4].
Proof. vm_compute. reflexivity. Qed.

(** [calibrate_pd_other_segments] on the sample panel, which has no
    near-prime account. *)
Lemma calibrate_pd_other_segments_witness :
  ("Near-Prime" ∉ map segment (rows sample_history)) /\
  pd_scalers (calibrate_pd sample_history sample_model).2 !! "Near-Prime"
  = pd_scalers sample_model !! "Near-Prime".
Proof.
  assert (H : "Near-Prime" ∉ map segment (rows sample_history)).
  { apply (bool_decide_unpack _). vm_compute. exact I. }
  split; [exact H|].
  exact (calibrate_pd_other_segments sample_history sample_model "Near-Prime" H).
Defined.

(** ** Sequences of calls *)

Section Sequences.

Context `{Lib : Library}.

Lemma bind_ret_state {A B : Type} (c : M A) (f : A -> B) self :
  (bind c (fun a => ret (f a)) self).2 = (c self).2.
Proof. unfold bind, ret. now destruct (c self) as [[e|a] self']. Qed.

Lemma invoke_scoring_state today c self :
  is_scoring c = true -> (invoke today c self).2 = self.
Proof.
  destruct c; try discriminate; intros _; cbn [invoke]; rewrite bind_ret_state.
  - apply score_portfolio_state.
  - apply run_stress_scenario_state.
Qed.

Lemma run_without_scoring calls self :
  run (filter (fun tc => is_scoring tc.2 = false) calls) self =
    (filter (fun cr => is_scoring cr.1 = false) (run calls self).1,
     (run calls self).2).
Proof.
  revert self. induction calls as [|[today c] calls IH]; intros self; [reflexivity|].
  cbn [run]. destruct (invoke today c self) as [result self1] eqn:Hinv.
  specialize (IH self1).
  destruct (run calls self1) as [results self2] eqn:Hrun. cbn [fst snd] in *.
  destruct (is_scoring c) eqn:Hc.
  - rewrite filter_cons_False by (cbn; congruence).
    rewrite filter_cons_False by (cbn; congruence).
    pose proof (invoke_scoring_state today c self Hc) as Hs.
    rewrite Hinv in Hs. cbn in Hs. subst self1. exact IH.
  - rewrite filter_cons_True by (cbn; congruence).
    rewrite filter_cons_True by (cbn; congruence).
    cbn [run]. now rewrite Hinv, IH.
Qed.

(** C10: [score_portfolio] and [run_stress_scenario] return the instance as
    they found it, generator and scaler map included; so a sequence of calls
    with its scoring and stress calls taken out gives the other calls the
    results they had, and ends in the same instance. *)
Theorem scoring_leaves_instance (portfolio : DataFrame)
    (pd_multiplier lgd_shift : float) (macro_shock : option float)
    (calls : list (date * call)) (self : CreditRiskModel) :
  let after_score := (score_portfolio portfolio self).2 in
  let after_stress :=
    (run_stress_scenario portfolio pd_multiplier lgd_shift macro_shock self).2 in
  (after_score = self /\ rng after_score = rng self /\
   pd_scalers after_score = pd_scalers self) /\
  (after_stress = self /\ rng after_stress = rng self /\
   pd_scalers after_stress = pd_scalers self) /\
  run (filter (fun tc => is_scoring tc.2 = false) calls) self =
    (filter (fun cr => is_scoring cr.1 = false) (run calls self).1,
     (run calls self).2).
Proof.
  cbv zeta. rewrite score_portfolio_state, run_stress_scenario_state.
  repeat split. apply run_without_scoring.
Qed.

(** *** The clock *)





End Sequences.

(** ** Generation *)

Section Generation.

Context `{Lib : Library}.

Lemma bind_inr_inv {A B : Type} (c : M A) (k : A -> M B) self b self' :
  bind c k self = (inr b, self') ->
  exists a self1, c self = (inr a, self1) /\ k a self1 = (inr b, self').
Proof.
  unfold bind. destruct (c self) as [[e|a] self1]; [discriminate|]. eauto.
Qed.

Lemma baseline_rows_pd i as_of segs eads lgds coupons terms pds r :
  r ∈ baseline_rows i as_of segs eads lgds coupons terms pds ->
  pd_estimate r ∈ pds.
Proof.
  revert i eads lgds coupons terms pds.
  induction segs as [|s segs IH]; intros i eads lgds coupons terms pds Hr.
  - inversion Hr.
  - destruct eads as [|e eads], lgds as [|l lgds], coupons as [|c coupons],
      terms as [|t terms], pds as [|p pds]; try (inversion Hr; fail).
    cbn [baseline_rows] in Hr. apply elem_of_cons in Hr as [->|Hr].
    + apply list_elem_of_here.
    + apply list_elem_of_further. exact (IH _ _ _ _ _ _ Hr).
Qed.

(** Every PD estimate of a generated snapshot comes out of the clip. *)
Lemma generate_baseline_data_pd today n d self frame self' r :
  generate_baseline_data today n d self = (inr frame, self') ->
  r ∈ rows frame ->
  exists x, pd_estimate r = np_clip x (pd_floor self) (pd_cap self).
Proof.
  intros H Hr. unfold generate_baseline_data in H.
  apply bind_inr_inv in H as (self0 & s0 & Hself & H).
  injection Hself as <- <-.
  do 7 (apply bind_inr_inv in H as (? & ? & _ & H)).
  injection H as <- _. cbn [rows] in Hr.
  apply baseline_rows_pd in Hr.
  apply elem_of_lookup_zip_with_1 in Hr as (_ & b & z & -> & _ & _).
  eauto.
Qed.

(** C9 at [periods = 0]: the loop appends nothing and [pd.concat] of the
    empty list raises; no table is returned. *)
Theorem generate_historical_data_no_periods (today : date)
    (accounts_per_period : nat) (start_date : option date)
    (period_length_days : Z) (self : CreditRiskModel) :
  generate_historical_data today 0 accounts_per_period start_date
    period_length_days self
  = (inl NoObjectsToConcatenate, self).
Proof. reflexivity. Qed.

End Generation.

(** ** Bounds *)

Section Bounds.

Context `{Lib : Library}.

Lemma stressed_rows_fields self m s k l r :
  r ∈ map (stressed_row self m s k) l ->
  exists r0, r0 ∈ l /\ pd_calibrated r = pd_calibrated r0 /\
    (exists x, pd_stressed r = series_clip x (pd_floor self) (pd_cap self)) /\
    (exists x, lgd_stressed r = series_clip x 0.0 1.0).
Proof.
  intros H. apply elem_of_map in H as (r0 & -> & Hr0).
  exists r0. cbn. eauto 10.
Qed.

(** C1, amended: with [pd_floor <= pd_cap], the [pd_estimate] of every row
    [generate_baseline_data] produces, the [pd_calibrated] of every row
    [score_portfolio] or [run_stress_scenario] produces and the
    [pd_stressed] of every row [run_stress_scenario] produces is NaN or lies
    within [pd_floor, pd_cap], and [lgd_stressed] is NaN or lies within
    [0, 1]. *)
Theorem pd_fields_within_bounds (self : CreditRiskModel) :
  PrimFloat.leb (pd_floor self) (pd_cap self) = true ->
  (forall today num_accounts as_of frame self' r,
     generate_baseline_data today num_accounts as_of self = (inr frame, self') ->
     r ∈ rows frame ->
     PrimFloat.is_nan (pd_estimate r) = false ->
     within (pd_floor self) (pd_cap self) (pd_estimate r)) /\
  (forall portfolio scored self' r,
     score_portfolio portfolio self = (inr scored, self') ->
     r ∈ rows scored ->
     PrimFloat.is_nan (pd_calibrated r) = false ->
     within (pd_floor self) (pd_cap self) (pd_calibrated r)) /\
  (forall portfolio pd_multiplier lgd_shift macro_shock stressed self' r,
     run_stress_scenario portfolio pd_multiplier lgd_shift macro_shock self
       = (inr stressed, self') ->
     r ∈ rows stressed ->
     (PrimFloat.is_nan (pd_calibrated r) = false ->
      within (pd_floor self) (pd_cap self) (pd_calibrated r)) /\
     (PrimFloat.is_nan (pd_stressed r) = false ->
      within (pd_floor self) (pd_cap self) (pd_stressed r)) /\
     (PrimFloat.is_nan (lgd_stressed r) = false ->
      within 0.0 1.0 (lgd_stressed r))).
Proof.
  intros Hle. split; [|split].
  - intros today n d frame self' r H Hr Hn.
    destruct (generate_baseline_data_pd _ _ _ _ _ _ _ H Hr) as [x Hx].
    rewrite Hx in *. now apply np_clip_not_nan_within.
  - intros portfolio scored self' r H Hr Hn.
    destruct (score_portfolio_clipped _ _ _ _ _ H Hr) as [x Hx].
    rewrite Hx in *. now apply np_clip_not_nan_within.
  - intros portfolio m s k stressed self' r H Hr.
    destruct (run_stress_scenario_returned _ _ _ _ _ _ _ H)
      as (_ & scored & Hscore & ->).
    cbn [rows] in Hr.
    destruct (stressed_rows_fields _ _ _ _ _ _ Hr)
      as (r0 & Hr0 & Hcal & [x Hx] & [y Hy]).
    destruct (score_portfolio_clipped _ _ _ _ _ Hscore Hr0) as [z Hz].
    rewrite Hcal, Hx, Hy, Hz.
    split; [|split]; intros Hn.
    + now apply np_clip_not_nan_within.
    + now apply series_clip_not_nan_within.
    + now apply (series_clip_not_nan_within _ 0.0%float 1.0%float).
Qed.

(** *** The neutral scenario *)




(** Stressing a table the scorer rejects raises the scorer's error and
    leaves the instance as it was. *)
Theorem run_stress_scenario_missing_columns (portfolio : DataFrame)
    (pd_multiplier lgd_shift : float) (macro_shock : option float)
    (self : CreditRiskModel) (e : exn) :
  (score_portfolio portfolio self).1 = inl e ->
  run_stress_scenario portfolio pd_multiplier lgd_shift macro_shock self
  = (inl e, self).
Proof.
  intros H. pose proof (score_portfolio_state portfolio self) as Hs.
  unfold run_stress_scenario. unfold bind at 1. unfold get_self at 1.
  apply bind_inl. destruct (score_portfolio portfolio self) as [r s].
  cbn in H, Hs. now subst.
Qed.

End Bounds.

(** ** The theorems on the sample inputs *)

(** C1 as stated fails on a table with a missing value: with
    [pd_floor <= pd_cap], scoring and stressing an account whose
    [pd_estimate] and [lgd] are NaN gives [pd_calibrated], [pd_stressed] and
    [lgd_stressed] that are NaN, inside no interval. *)
Lemma pd_fields_nan_counterexample :
  PrimFloat.leb (pd_floor sample_model) (pd_cap sample_model) = true /\
  (exists scored r,
     (score_portfolio sample_nan_portfolio sample_model).1 = inr scored /\
     r ∈ rows scored /\
     ~ within (pd_floor sample_model) (pd_cap sample_model) (pd_calibrated r)) /\
  (exists stressed r,
     (run_stress_scenario sample_nan_portfolio 1.35 0.05 None sample_model).1
       = inr stressed /\
     r ∈ rows stressed /\
     ~ within (pd_floor sample_model) (pd_cap sample_model) (pd_stressed r) /\
     ~ within 0.0 1.0 (lgd_stressed r)).
Proof.
  split; [reflexivity|]. split.
  - do 2 eexists. split; [vm_compute; reflexivity|].
    split; [apply list_elem_of_here|].
    intros [H _]. vm_compute in H. discriminate.
  - do 2 eexists. split; [vm_compute; reflexivity|].
    split; [apply list_elem_of_here|]. split.
    + intros [H _]. vm_compute in H. discriminate.
    + intros [H _]. vm_compute in H. discriminate.
Qed.

(** [pd_fields_within_bounds] on the default configuration. *)
Lemma pd_fields_within_bounds_witness :
  PrimFloat.leb (pd_floor sample_model) (pd_cap sample_model) = true /\
  (forall scored self' r,
     score_portfolio sample_portfolio sample_model = (inr scored, self') ->
     r ∈ rows scored ->
     PrimFloat.is_nan (pd_calibrated r) = false ->
     within (pd_floor sample_model) (pd_cap sample_model) (pd_calibrated r)).
Proof.
  assert (H : PrimFloat.leb (pd_floor sample_model) (pd_cap sample_model) = true)
    by reflexivity.
  split; [exact H|].
  exact (proj1 (proj2 (pd_fields_within_bounds sample_model H)) sample_portfolio).
Defined.

(** The scored and stressed PDs of the sample portfolio. *)
Example pd_fields_sample :
  (exists scored,
     (score_portfolio sample_portfolio sample_model).1 = inr scored /\
     map pd_calibrated (rows scored) = [0.004; 0.05; 0.4]%float) /\
  (exists stressed,
     (run_stress_scenario sample_portfolio 10.0 0.5 None sample_model).1
       = inr stressed /\
     map pd_stressed (rows stressed) = [0.04; 0.4; 0.4]%float /\
     map lgd_stressed (rows stressed) = [0.9; 1.0; 0.8]%float).
Proof.
  split.
  - eexists. split; vm_compute; reflexivity.
  - eexists. split; [vm_compute; reflexivity|]. split; vm_compute; reflexivity.
Qed.


(** An infinite bound breaks the equality too: with [pd_cap] infinite an
    infinite [pd_estimate] stays infinite, [inf * 1.0 + 0.0 * inf] is NaN,
    and the stressed loss is NaN where the expected loss is infinite. *)
Example neutral_stress_infinite_cap_sample :
  exists scored stressed r r',
    (score_portfolio sample_infinite_portfolio sample_uncapped_model).1
      = inr scored /\
    (run_stress_scenario sample_infinite_portfolio 1.0 0.0 (Some 0.0%float)
       sample_uncapped_model).1 = inr stressed /\
    rows scored !! 0%nat = Some r /\ rows stressed !! 0%nat = Some r' /\
    expected_loss r = PrimFloat.infinity /\
    PrimFloat.is_nan (expected_loss_stressed r') = true.
Proof.
  do 4 eexists.
  split; [vm_compute; reflexivity|]. split; [vm_compute; reflexivity|].
  split; [reflexivity|]. split; [reflexivity|].
  split; vm_compute; reflexivity.
Qed.

(** The negative zero: an [lgd] of [-0.0] gives an expected loss of [-0.0]
    and a stressed loss of [0.0], the same number. *)
Example neutral_stress_negative_zero_sample :
  exists scored stressed r r',
    (score_portfolio sample_negative_zero_portfolio sample_model).1
      = inr scored /\
    (run_stress_scenario sample_negative_zero_portfolio 1.0 0.0 (Some 0.0%float)
       sample_model).1 = inr stressed /\
    rows scored !! 0%nat = Some r /\ rows stressed !! 0%nat = Some r' /\
    expected_loss r = PrimFloat.neg_zero /\
    expected_loss_stressed r' = 0.0%float /\
    PrimFloat.eqb (expected_loss_stressed r') (expected_loss r) = true.
Proof.
  do 4 eexists.
  split; [vm_compute; reflexivity|]. split; [vm_compute; reflexivity|].
  split; [reflexivity|]. split; [reflexivity|].
  split; [vm_compute; reflexivity|]. split; vm_compute; reflexivity.
Qed.


(** ** Generated tables *)

Section GeneratedTables.

Context `{Lib : Library}.

Hypothesis laws : LibraryLaws Lib.

Lemma draws_length {A : Type} (draw : Generator -> A * Generator) n g :
  length (draws draw n g).1 = n.
Proof.
  revert g. induction n as [|n IH]; intros g; [reflexivity|].
  cbn [draws]. destruct (draw g) as [x g1]. specialize (IH g1).
  destruct (draws draw n g1) as [xs g2]. cbn in *. now rewrite IH.
Qed.

Lemma draws_Forall {A : Type} (P : A -> Prop) (draw : Generator -> A * Generator) n g :
  (forall g', P (draw g').1) -> Forall P (draws draw n g).1.
Proof.
  intros HP. revert g. induction n as [|n IH]; intros g; [constructor|].
  cbn [draws]. pose proof (HP g) as Hx. destruct (draw g) as [x g1].
  specialize (IH g1). destruct (draws draw n g1) as [xs g2]. cbn in *.
  now constructor.
Qed.

Lemma draws_over_length {A B : Type} (draw : Generator -> B -> A * Generator) args g :
  length (draws_over draw args g).1 = length args.
Proof.
  revert g. induction args as [|b args IH]; intros g; [reflexivity|].
  cbn [draws_over]. destruct (draw g b) as [x g1]. specialize (IH g1).
  destruct (draws_over draw args g1) as [xs g2]. cbn in *. now rewrite IH.
Qed.

Lemma draws_over_Forall {A B : Type} (P : A -> Prop)
    (draw : Generator -> B -> A * Generator) args g :
  (forall g' b, P (draw g' b).1) -> Forall P (draws_over draw args g).1.
Proof.
  intros HP. revert g. induction args as [|b args IH]; intros g; [constructor|].
  cbn [draws_over]. pose proof (HP g b) as Hx. destruct (draw g b) as [x g1].
  specialize (IH g1). destruct (draws_over draw args g1) as [xs g2]. cbn in *.
  now constructor.
Qed.

Lemma bind_with_generator {A B : Type} (draw : Generator -> A * Generator)
    (k : A -> M B) self :
  bind (with_generator draw) k self
  = k (draw (rng self)).1 (with_rng (draw (rng self)).2 self).
Proof.
  unfold bind, with_generator. now destruct (draw (rng self)).
Qed.

Lemma configured_with_rng g self : configured self -> configured (with_rng g self).
Proof. intros H. exact H. Qed.

Lemma for_each_lookup self0 segs self :
  Forall (fun s => is_Some (base_pd self0 !! s)) segs ->
  exists vals,
    for_each (fun seg => of_result (lookup_base_pd self0 seg)) segs self
      = (inr vals, self) /\ length vals = length segs.
Proof.
  induction 1 as [|s segs [v Hv] _ (vals & IH & Hlen)].
  - exists []. now split.
  - exists (v :: vals). split; [|cbn; now rewrite Hlen].
    cbn [for_each]. unfold bind at 1, of_result at 1, lookup_base_pd at 1.
    rewrite Hv. unfold bind. rewrite IH. reflexivity.
Qed.

Lemma baseline_rows_length i as_of segs eads lgds coupons terms pds n :
  length segs = n -> length eads = n -> length lgds = n ->
  length coupons = n -> length terms = n -> length pds = n ->
  length (baseline_rows i as_of segs eads lgds coupons terms pds) = n.
Proof.
  revert i segs eads lgds coupons terms pds.
  induction n as [|n IH]; intros i segs eads lgds coupons terms pds;
    destruct segs, eads, lgds, coupons, terms, pds; try discriminate;
    intros; [reflexivity|].
  cbn [baseline_rows length]. f_equal. apply IH; cbn in *; lia.
Qed.

Lemma baseline_rows_lookup i as_of segs eads lgds coupons terms pds j r :
  baseline_rows i as_of segs eads lgds coupons terms pds !! j = Some r ->
  account_id r = account_label (i + j) /\ as_of_date r = as_of /\
  segment r ∈ segs.
Proof.
  revert i j eads lgds coupons terms pds.
  induction segs as [|s segs IH]; intros i j eads lgds coupons terms pds Hr;
    [discriminate|].
  destruct eads, lgds, coupons, terms, pds; try discriminate.
  cbn [baseline_rows] in Hr. destruct j as [|j].
  - injection Hr as <-. cbn. rewrite Nat.add_0_r.
    repeat split. apply list_elem_of_here.
  - cbn in Hr. apply IH in Hr as (Hid & Hd & Hs).
    replace (i + S j)%nat with (S i + j)%nat by lia.
    repeat split; try assumption. now apply list_elem_of_further.
Qed.

(** On a configured instance a snapshot is returned whatever its size: it
    has [num_accounts] rows, numbered from [ACC-000000] in order, dated
    [as_of_date] or today, each in a configured segment; only the generator
    of the instance has moved. *)
Lemma generate_baseline_data_ok today n d self :
  configured self ->
  exists frame g,
    generate_baseline_data today n d self = (inr frame, with_rng g self) /\
    columns frame = baseline_columns /\
    length (rows frame) = n /\
    forall j r, rows frame !! j = Some r ->
      account_id r = account_label j /\
      as_of_date r = default today d /\
      segment r ∈ segments self.
Proof.
  intros [Hne Hpd]. unfold generate_baseline_data.
  unfold bind at 1. unfold get_self at 1. cbv zeta.
  rewrite bind_with_generator.
  set (c := draws (fun g => choice g (segments self) (_segment_probs self)) n (rng self)).
  assert (Hsegs : Forall (fun s => s ∈ segments self) c.1).
  { apply draws_Forall. intros g'. now apply (choice_elem _ laws). }
  assert (Hlen_segs : length c.1 = n) by apply draws_length.
  rewrite bind_with_generator. cbn [rng with_rng].
  set (e := draws _ n c.2).
  assert (Hlen_e : length e.1 = n) by apply draws_length.
  rewrite bind_with_generator. cbn [rng with_rng].
  set (l := draws _ n e.2).
  assert (Hlen_l : length l.1 = n) by apply draws_length.
  rewrite bind_with_generator. cbn [rng with_rng].
  set (cp := draws _ n l.2).
  assert (Hlen_cp : length cp.1 = n) by apply draws_length.
  rewrite bind_with_generator. cbn [rng with_rng].
  set (t := draws _ n cp.2).
  assert (Hlen_t : length t.1 = n) by apply draws_length.
  destruct (for_each_lookup self c.1 (with_rng t.2 self)) as (vals & Hvals & Hlen_v).
  { eapply Forall_impl; [exact Hsegs|]. intros s Hs. now apply Hpd. }
  rewrite (bind_inr _ _ _ _ _ Hvals).
  rewrite bind_with_generator. cbn [rng with_rng].
  set (z := draws _ n t.2).
  assert (Hlen_z : length z.1 = n) by apply draws_length.
  unfold ret. do 2 eexists. split; [reflexivity|].
  cbn [columns rows]. split; [reflexivity|]. split.
  - apply baseline_rows_length; try assumption.
    rewrite length_zip_with. lia.
  - intros j r Hr. apply baseline_rows_lookup in Hr as (Hid & Hd & Hs).
    repeat split; try assumption.
    rewrite Forall_forall in Hsegs. now apply Hsegs.
Qed.

(** *** The panel *)

Lemma period_rows_spec p flags rlgds rws r :
  Forall (fun f => 0 <= f <= 1) flags ->
  r ∈ map (set_period p)
        (zip_with set_loss
           (zip_with (fun fe rl => (fe * rl)%float)
              (zip_with (fun f e => (float_of_Z f * e)%float) flags (map ead rws))
              rlgds)
           (zip_with set_realized_lgd rlgds
              (zip_with set_default_flag
                 (map (fun f => negb (f =? 0)) flags) rws))) ->
  period r = p /\
  loss r = (float_of_bool (default_flag r) * ead r * realized_lgd r)%float.
Proof.
  intros Hflags. revert rlgds rws.
  induction Hflags as [|f flags Hf _ IH]; intros rlgds rws Hr.
  - cbn in Hr. inversion Hr.
  - destruct rws as [|r0 rws]; [cbn in Hr; inversion Hr|].
    destruct rlgds as [|rl rlgds]; [cbn in Hr; inversion Hr|].
    cbn [map zip_with] in Hr. apply elem_of_cons in Hr as [->|Hr].
    + split; [reflexivity|]. cbn.
      assert (f = 0 \/ f = 1) as [->| ->] by lia; reflexivity.
    + exact (IH _ _ Hr).
Qed.

Lemma period_rows_length {A : Type} (p : A) (setp : A -> Row -> Row)
    (losses rlgds : list float) (flags : list bool) rws n :
  length losses = n -> length rlgds = n -> length flags = n -> length rws = n ->
  length (map (setp p)
            (zip_with set_loss losses
               (zip_with set_realized_lgd rlgds
                  (zip_with set_default_flag flags rws)))) = n.
Proof.
  intros. rewrite length_map, !length_zip_with. lia.
Qed.

Lemma historical_period_ok today start_date n len i self :
  configured self ->
  exists frame g,
    historical_period today start_date n len i self
      = (inr frame, with_rng g self) /\
    length (rows frame) = n /\
    forall r, r ∈ rows frame ->
      period r = Z.of_nat i + 1 /\
      loss r = (float_of_bool (default_flag r) * ead r * realized_lgd r)%float.
Proof.
  intros Hc. unfold historical_period.
  unfold bind at 1. unfold get_self at 1. cbv zeta.
  destruct (generate_baseline_data_ok today n
              (Some (start_date + Z.of_nat i * len)) self Hc)
    as (snap & g & Hsnap & _ & Hlen & _).
  rewrite (bind_inr _ _ _ _ _ Hsnap).
  rewrite bind_with_generator. cbn [rng with_rng].
  set (f := draws_over _ (map pd_estimate (rows snap)) g).
  assert (Hlen_f : length f.1 = n).
  { unfold f. rewrite draws_over_length, length_map. exact Hlen. }
  assert (Hf : Forall (fun k => 0 <= k <= 1) f.1).
  { apply draws_over_Forall. intros g' p. now apply (binomial_range _ laws). }
  rewrite bind_with_generator. cbn [rng with_rng].
  set (rl := draws _ n f.2).
  assert (Hlen_rl : length rl.1 = n) by apply draws_length.
  unfold ret, assign_scalar, assign. cbn [rows columns].
  do 2 eexists. split; [reflexivity|]. split.
  - apply period_rows_length; try assumption.
    + rewrite !length_zip_with, length_map. lia.
    + now rewrite length_map.
  - intros r Hr. now apply period_rows_spec in Hr.
Qed.

Lemma historical_periods_ok today start_date n len first p self :
  configured self ->
  exists frames g,
    for_each (historical_period today start_date n len) (seq first p) self
      = (inr frames, with_rng g self) /\
    Forall2 (period_frame n) (seq first p) frames.
Proof.
  intros Hc. revert first self Hc.
  induction p as [|p IH]; intros first self Hc.
  - exists [], (rng self). cbn. unfold ret. rewrite with_rng_same. now split.
  - cbn [seq for_each].
    destruct (historical_period_ok today start_date n len first self Hc)
      as (frame & g & Hframe & Hrows).
    rewrite (bind_inr _ _ _ _ _ Hframe).
    destruct (IH (S first) (with_rng g self) (configured_with_rng g self Hc))
      as (frames & g' & Hframes & Hall).
    rewrite (bind_inr _ _ _ _ _ Hframes). unfold ret.
    exists (frame :: frames), g'. split; [reflexivity|].
    constructor; [exact Hrows | exact Hall].
Qed.

Lemma period_frames_concat n first p frames :
  Forall2 (period_frame n) (seq first p) frames ->
  length (concat (map rows frames)) = (p * n)%nat /\
  (forall i j r, (j < n)%nat ->
     concat (map rows frames) !! (i * n + j)%nat = Some r ->
     period r = Z.of_nat (first + i) + 1) /\
  (forall r, r ∈ concat (map rows frames) ->
     loss r = (float_of_bool (default_flag r) * ead r * realized_lgd r)%float).
Proof.
  revert first frames. induction p as [|p IH]; intros first frames H.
  - inversion H; subst. cbn. repeat split.
    + intros i j r _ Hr. rewrite lookup_nil in Hr. discriminate.
    + intros r Hr. inversion Hr.
  - cbn [seq] in H. inversion H as [|? frame ? frames' Hframe Hrest]; subst.
    destruct Hframe as [Hlen Hrows].
    destruct (IH _ _ Hrest) as (IHlen & IHpos & IHloss).
    cbn [map concat]. repeat split.
    + rewrite length_app, IHlen, Hlen. lia.
    + intros i j r Hj Hr. destruct i as [|i].
      * rewrite lookup_app_l in Hr by (cbn; lia).
        apply list_elem_of_lookup_2 in Hr. rewrite Nat.add_0_r.
        now apply Hrows.
      * rewrite lookup_app_r in Hr by (rewrite Hlen; cbn; lia).
        rewrite Hlen in Hr.
        replace (S i * n + j - n)%nat with (i * n + j)%nat in Hr by (cbn; lia).
        rewrite (IHpos i j r Hj Hr). f_equal. lia.
    + intros r Hr. apply elem_of_app in Hr as [Hr|Hr].
      * now apply Hrows.
      * now apply IHloss.
Qed.

(** For at least one period, on a configured instance,
    [generate_historical_data] returns [periods * accounts_per_period] rows
    in period order: the rows at positions [i * n .. (i + 1) * n - 1] carry
    [period = i + 1], and every row's [loss] is
    [default_flag * ead * realized_lgd]. *)
Theorem generate_historical_data_panel (today : date) (periods n : nat)
    (start_date : option date) (period_length_days : Z)
    (self : CreditRiskModel) :
  (0 < periods)%nat ->
  configured self ->
  exists frame self',
    generate_historical_data today periods n start_date period_length_days self
      = (inr frame, self') /\
    pd_scalers self' = pd_scalers self /\
    length (rows frame) = (periods * n)%nat /\
    (forall i j r, (i < periods)%nat -> (j < n)%nat ->
       rows frame !! (i * n + j)%nat = Some r -> period r = Z.of_nat i + 1) /\
    (forall r, r ∈ rows frame ->
       loss r = (float_of_bool (default_flag r) * ead r * realized_lgd r)%float).
Proof.
  intros Hp Hc. unfold generate_historical_data. cbv zeta.
  destruct (historical_periods_ok today
              (default (today - Z.of_nat periods * period_length_days) start_date)
              n period_length_days 0 periods self Hc)
    as (frames & g & Hframes & Hall).
  rewrite (bind_inr _ _ _ _ _ Hframes).
  destruct frames as [|frame frames].
  { apply Forall2_length in Hall. rewrite length_seq in Hall. cbn in Hall. lia. }
  unfold of_result, pd_concat. do 2 eexists. split; [reflexivity|].
  cbn [rows pd_scalers with_rng]. split; [reflexivity|].
  destruct (period_frames_concat _ _ _ _ Hall) as (Hlen & Hpos & Hloss).
  split; [exact Hlen|]. split; [|exact Hloss].
  intros i j r _ Hj Hr. exact (Hpos i j r Hj Hr).
Qed.

(** A snapshot has exactly [num_accounts] rows, numbered from [ACC-000000]
    in order, each in one of the configured segments. *)
Theorem generate_baseline_data_rows (today : date) (num_accounts : nat)
    (as_of : option date) (self : CreditRiskModel) :
  configured self ->
  exists frame self',
    generate_baseline_data today num_accounts as_of self = (inr frame, self') /\
    pd_scalers self' = pd_scalers self /\
    length (rows frame) = num_accounts /\
    forall j r, rows frame !! j = Some r ->
      account_id r = account_label j /\ segment r ∈ segments self.
Proof.
  intros Hc.
  destruct (generate_baseline_data_ok today num_accounts as_of self Hc)
    as (frame & g & H & _ & Hlen & Hrows).
  exists frame, (with_rng g self). split; [exact H|].
  split; [reflexivity|]. split; [exact Hlen|].
  intros j r Hr. destruct (Hrows j r Hr) as (Hid & _ & Hs). now split.
Qed.

End GeneratedTables.

Lemma sample_model_configured : configured sample_model.
Proof.
  split; [discriminate|].
  intros s Hs. cbn in Hs.
  repeat (apply elem_of_cons in Hs as [->|Hs]); [| | |inversion Hs];
    eexists; vm_compute; reflexivity.
Qed.

(** [generate_historical_data_panel] for two periods of ten accounts. *)
Lemma generate_historical_data_panel_witness :
  LibraryLaws lcg_library /\ (0 < 2)%nat /\ configured sample_model /\
  exists frame self',
    generate_historical_data 738000 2 10 None 30 sample_model
      = (inr frame, self') /\
    pd_scalers self' = pd_scalers sample_model /\
    length (rows frame) = (2 * 10)%nat /\
    (forall i j r, (i < 2)%nat -> (j < 10)%nat ->
       rows frame !! (i * 10 + j)%nat = Some r -> period r = Z.of_nat i + 1) /\
    (forall r, r ∈ rows frame ->
       loss r = (float_of_bool (default_flag r) * ead r * realized_lgd r)%float).
Proof.
  assert (H : (0 < 2)%nat) by lia.
  split; [exact lcg_library_laws|]. split; [exact H|].
  split; [exact sample_model_configured|].
  exact (generate_historical_data_panel lcg_library_laws 738000 2 10 None 30
           sample_model H sample_model_configured).
Defined.

(** The periods of that panel, row by row. *)
Example generate_historical_data_sample :
  exists frame,
    (generate_historical_data 738000 2 10 None 30 sample_model).1 = inr frame /\
    map period (rows frame)
    = [1; 1; 1; 1; 1; 1; 1; 1; 1; 1; 2; 2; 2; 2; 2; 2; 2; 2; 2; 2] /\
    map as_of_date (rows frame)
    = replicate 10 737940 ++ replicate 10 737970.
Proof.
  eexists. split; [vm_compute; reflexivity|].
  split; vm_compute; reflexivity.
Qed.

(** [generate_baseline_data_rows] for five accounts. *)
Lemma generate_baseline_data_rows_witness :
  LibraryLaws lcg_library /\ configured sample_model /\
  exists frame self',
    generate_baseline_data 738000 5 None sample_model = (inr frame, self') /\
    pd_scalers self' = pd_scalers sample_model /\
    length (rows frame) = 5%nat /\
    forall j r, rows frame !! j = Some r ->
      account_id r = account_label j /\ segment r ∈ segments sample_model.
Proof.
  split; [exact lcg_library_laws|]. split; [exact sample_model_configured|].
  exact (generate_baseline_data_rows lcg_library_laws 738000 5 None sample_model
           sample_model_configured).
Defined.

(** The account ids of that snapshot. *)
Example generate_baseline_data_sample :
  exists frame,
    (generate_baseline_data 738000 5 None sample_model).1 = inr frame /\
    map account_id (rows frame)
    = ["ACC-000000"; "ACC-000001"; "ACC-000002"; "ACC-000003"; "ACC-000004"].
Proof. eexists. split; vm_compute; reflexivity. Qed.

(** [run_stress_scenario_missing_columns] on the table without [segment]. *)
Lemma run_stress_scenario_missing_columns_witness :
  (score_portfolio sample_incomplete sample_model).1
    = inl (MissingColumns ["segment"]) /\
  run_stress_scenario sample_incomplete 1.35 0.05 None sample_model
    = (inl (MissingColumns ["segment"]), sample_model).
Proof.
  assert (H : (score_portfolio sample_incomplete sample_model).1
              = inl (MissingColumns ["segment"])) by (vm_compute; reflexivity).
  split; [exact H|].
  exact (run_stress_scenario_missing_columns sample_incomplete 1.35 0.05 None
           sample_model _ H).
Defined.

(** * Further properties *)

(** ** The constructor *)

Lemma list_to_map_const_lookup (l : list string) (v : float) (seg : string) :
  (list_to_map (map (fun s => (s, v)) l) : gmap string float) !! seg
  = if bool_decide (seg ∈ l) then Some v else None.
Proof.
  induction l as [|s l IH]; cbn [map].
  - rewrite list_to_map_nil, lookup_empty.
    now rewrite bool_decide_eq_false_2 by (intros H; inversion H).
  - rewrite list_to_map_cons. destruct (decide (seg = s)) as [->|Hne].
    + rewrite lookup_insert_eq.
      now rewrite bool_decide_eq_true_2 by apply list_elem_of_here.
    + rewrite lookup_insert_ne by congruence. rewrite IH.
      apply (f_equal (fun b : bool => if b then Some v else None)).
      apply bool_decide_ext. rewrite elem_of_cons.
      split; [auto|]. intros [?|?]; [congruence|assumption].
Qed.

Section Constructor.

Context `{Lib : Library}.

(** [__post_init__]: a new instance draws from a generator seeded with
    [seed], and its scaler map has the entry 1.0 for each configured segment
    and no other entry. *)
Theorem post_init_scalers (entropy seed : Z) (segments : list string)
    (base_pd : gmap string float) (pd_floor pd_cap : float)
    (lgd_range : float * float) (ead_range : Z * Z)
    (coupon_range : float * float) (term_range_months : Z * Z) (seg : string) :
  let self := new_model entropy seed segments base_pd pd_floor pd_cap lgd_range
                        ead_range coupon_range term_range_months in
  rng self = default_rng (Some seed) entropy /\
  pd_scalers self !! seg
  = if bool_decide (seg ∈ segments) then Some 1.0%float else None.
Proof.
  cbv zeta. split; [reflexivity|]. cbn [pd_scalers new_model].
  apply list_to_map_const_lookup.
Qed.


Lemma uncalibrated_with_rng g self :
  uncalibrated self -> uncalibrated (with_rng g self).
Proof. intros H. exact H. Qed.

Lemma uncalibrated_scaler self seg :
  uncalibrated self -> default 1.0%float (pd_scalers self !! seg) = 1.0%float.
Proof.
  intros H. destruct (pd_scalers self !! seg) as [v|] eqn:E; [|reflexivity].
  cbn. now apply (H seg).
Qed.

Lemma scored_row_uncalibrated self r :
  uncalibrated self ->
  scored_row self r =
    set_expected_loss
      (ead r * lgd r * np_clip (pd_estimate r) (pd_floor self) (pd_cap self))%float
      (set_pd_calibrated (np_clip (pd_estimate r) (pd_floor self) (pd_cap self)) r).
Proof.
  intros H. unfold scored_row. rewrite (uncalibrated_scaler _ _ H), mul_one_r.
  reflexivity.
Qed.


End Constructor.

(** ** Scoring again *)

Section Rescoring.

Context `{Lib : Library}.

Lemma scored_row_idemp self r :
  scored_row self (scored_row self r) = scored_row self r.
Proof. reflexivity. Qed.

Lemma stressed_scored_row_idemp self m s k r :
  stressed_row self m s k (scored_row self (stressed_row self m s k (scored_row self r)))
  = stressed_row self m s k (scored_row self r).
Proof. reflexivity. Qed.

Lemma distinct_labels_add_column labels name frame rws :
  distinct_labels labels frame ->
  distinct_labels labels (mkFrame (add_column name (columns frame)) rws).
Proof.
  rewrite !distinct_labels_repeated. intros H label Hl.
  rewrite (repeated_add_column _ _ _ _ (rows frame)).
  destruct frame. now apply H.
Qed.

Lemma distinct_labels_scored labels cols rws rws' :
  distinct_labels labels (mkFrame cols rws) ->
  distinct_labels labels (mkFrame (scored_columns cols) rws').
Proof.
  intros H. unfold scored_columns.
  apply (distinct_labels_add_column _ _ (mkFrame _ rws')).
  now apply (distinct_labels_add_column _ _ (mkFrame cols rws)).
Qed.

Lemma distinct_labels_stressed labels cols rws rws' :
  distinct_labels labels (mkFrame cols rws) ->
  distinct_labels labels (mkFrame (stressed_columns cols) rws').
Proof.
  intros H. unfold stressed_columns.
  apply (distinct_labels_add_column _ _ (mkFrame _ rws')).
  apply (distinct_labels_add_column _ _ (mkFrame _ rws')).
  now apply (distinct_labels_add_column _ _ (mkFrame cols rws)).
Qed.

(** Scoring a scored table again, under the same scalers, returns it as it
    is: the same columns and the same rows. *)
Theorem score_portfolio_idempotent (portfolio : DataFrame)
    (self : CreditRiskModel) :
  score_columns ⊆ columns portfolio ->
  distinct_labels score_reads portfolio ->
  exists scored,
    score_portfolio portfolio self = (inr scored, self) /\
    score_portfolio scored self = (inr scored, self).
Proof.
  intros Hcols Hd. eexists. split; [apply (score_portfolio_ok _ _ Hcols Hd)|].
  rewrite score_portfolio_ok.
  - cbn [columns rows].
    rewrite scored_columns_idemp, (map_idemp _ _ (scored_row_idemp self)).
    reflexivity.
  - now apply scored_columns_subseteq.
  - destruct portfolio as [cols rws]. now apply (distinct_labels_scored _ _ rws).
Qed.

(** The stress scores its input itself, so it gives the same table on a
    raw portfolio, on the scored portfolio, and on its own result. *)
Theorem run_stress_scenario_rescored (portfolio : DataFrame)
    (pd_multiplier lgd_shift : float) (macro_shock : option float)
    (self : CreditRiskModel) :
  score_columns ⊆ columns portfolio ->
  distinct_labels (score_reads ++ stress_reads) portfolio ->
  exists scored stressed,
    score_portfolio portfolio self = (inr scored, self) /\
    run_stress_scenario portfolio pd_multiplier lgd_shift macro_shock self
      = (inr stressed, self) /\
    run_stress_scenario scored pd_multiplier lgd_shift macro_shock self
      = (inr stressed, self) /\
    run_stress_scenario stressed pd_multiplier lgd_shift macro_shock self
      = (inr stressed, self).
Proof.
  intros Hcols Hd.
  assert (Hd1 : distinct_labels score_reads portfolio).
  { apply (distinct_labels_subseteq (score_reads ++ stress_reads)); [|exact Hd].
    intros c Hc. apply elem_of_app. now left. }
  do 2 eexists.
  split; [apply (score_portfolio_ok _ _ Hcols Hd1)|].
  split; [apply (run_stress_scenario_ok _ _ _ _ _ Hcols Hd)|].
  destruct portfolio as [cols rws]. cbn [columns rows] in *.
  split.
  - rewrite run_stress_scenario_ok.
    + cbn [columns rows].
      rewrite scored_columns_idemp, (map_idemp _ _ (scored_row_idemp self)).
      reflexivity.
    + now apply scored_columns_subseteq.
    + now apply (distinct_labels_scored _ _ rws).
  - rewrite run_stress_scenario_ok.
    + cbn [columns rows].
      rewrite scored_stressed_columns, stressed_columns_idemp.
      rewrite !map_map. reflexivity.
    + now apply stressed_columns_subseteq, scored_columns_subseteq.
    + apply (distinct_labels_stressed _ _ rws).
      now apply (distinct_labels_scored _ _ rws).
Qed.

(** The result keeps the input's columns in their order and appends the
    columns it computes that the input did not already have. *)
Theorem result_columns_layout (portfolio : DataFrame)
    (pd_multiplier lgd_shift : float) (macro_shock : option float)
    (self : CreditRiskModel) :
  score_columns ⊆ columns portfolio ->
  distinct_labels (score_reads ++ stress_reads) portfolio ->
  exists scored stressed,
    score_portfolio portfolio self = (inr scored, self) /\
    run_stress_scenario portfolio pd_multiplier lgd_shift macro_shock self
      = (inr stressed, self) /\
    columns scored =
      columns portfolio
      ++ filter (fun c => c ∉ columns portfolio)
           ["pd_calibrated"; "expected_loss"] /\
    columns stressed =
      columns portfolio
      ++ filter (fun c => c ∉ columns portfolio)
           ["pd_calibrated"; "expected_loss"; "pd_stressed"; "lgd_stressed";
            "expected_loss_stressed"].
Proof.
  intros Hcols Hd.
  assert (Hd1 : distinct_labels score_reads portfolio).
  { apply (distinct_labels_subseteq (score_reads ++ stress_reads)); [|exact Hd].
    intros c Hc. apply elem_of_app. now left. }
  do 2 eexists.
  split; [apply (score_portfolio_ok _ _ Hcols Hd1)|].
  split; [apply (run_stress_scenario_ok _ _ _ _ _ Hcols Hd)|].
  cbn [columns]. split.
  - apply (add_columns_layout ["pd_calibrated"; "expected_loss"]).
    apply (bool_decide_unpack _). vm_compute. exact I.
  - apply (add_columns_layout
             ["pd_calibrated"; "expected_loss"; "pd_stressed"; "lgd_stressed";
              "expected_loss_stressed"]).
    apply (bool_decide_unpack _). vm_compute. exact I.
Qed.

End Rescoring.

(** ** More on calibration *)


Section Recalibration.

Context `{Lib : Library}.

Lemma elem_of_keys (groups : list (string * list Row)) seg :
  seg ∈ map fst groups -> exists g, g ∈ groups /\ g.1 = seg.
Proof.
  intros H. apply elem_of_map in H as (g & -> & Hg). eauto.
Qed.

Lemma calibrated_scalers_lookup scalers groups seg :
  NoDup (map fst groups) ->
  calibrated_scalers scalers groups !! seg =
    match list_find (fun g => g.1 = seg) groups with
    | Some (_, g) => Some (group_scaler g)
    | None => scalers !! seg
    end.
Proof.
  intros Hnd. destruct (list_find _ groups) as [[i g]|] eqn:E.
  - apply list_find_Some in E as (Hi & <- & _).
    apply calibrated_scalers_group; [exact Hnd|].
    now apply list_elem_of_lookup_2 in Hi.
  - apply calibrated_scalers_other. intros H.
    apply elem_of_keys in H as (g & Hg & Heq).
    rewrite list_find_None, Forall_forall in E. now apply (E g).
Qed.


Lemma with_pd_scalers_twice s1 s2 self :
  with_pd_scalers s1 (with_pd_scalers s2 self) = with_pd_scalers s1 self.
Proof. reflexivity. Qed.

Lemma calibrate_pd_state history self :
  (calibrate_pd history self).2 =
    with_pd_scalers (pd_scalers (calibrate_pd history self).2) self.
Proof.
  destruct (calibrate_pd_cases history self)
    as [[_ H]|[(c & l & _ & _ & H & _)|(label & _ & H & _)]]; rewrite H;
    cbn [snd]; [reflexivity| |]; now rewrite with_pd_scalers_same.
Qed.

(** [calibrate_pd] writes nothing but scalers: the generator and the
    configuration stay as they were, whether it returns or raises; no
    entry of the scaler map is removed, and the only entries added are for
    segments of the panel. *)
Theorem calibrate_pd_frame (history : DataFrame) (self : CreditRiskModel) :
  let self' := (calibrate_pd history self).2 in
  self' = with_pd_scalers (pd_scalers self') self /\
  rng self' = rng self /\
  (forall seg, is_Some (pd_scalers self !! seg) ->
               is_Some (pd_scalers self' !! seg)) /\
  (forall seg, is_Some (pd_scalers self' !! seg) ->
               is_Some (pd_scalers self !! seg) \/
               seg ∈ map segment (rows history)).
Proof.
  cbv zeta. split; [apply calibrate_pd_state|].
  split; [now rewrite calibrate_pd_state|].
  destruct (calibrate_pd_cases history self)
    as [[_ H]|[(c & l & _ & _ & H & _)|(label & _ & H & _)]]; rewrite H;
    cbn [snd]; [|auto|auto].
  cbn [pd_scalers with_pd_scalers].
  pose proof (groupby_segment_keys_NoDup history) as Hnd.
  split; intros seg; rewrite (calibrated_scalers_lookup _ _ _ Hnd);
    destruct (list_find _ (groupby_segment history)) as [[i g]|] eqn:E;
    eauto.
  intros _. right. apply groupby_segment_key_elem.
  apply list_find_Some in E as (Hi & <- & _).
  apply elem_of_map_2. now apply list_elem_of_lookup_2 in Hi.
Qed.






End Recalibration.

(** ** The column check *)

(** [_require_columns] compares sets of names: the order of the names and
    their repetitions play no part, on either side. *)
Theorem require_columns_names (frame1 frame2 : DataFrame)
    (cols1 cols2 : list string) :
  (forall c, c ∈ cols1 <-> c ∈ cols2) ->
  (forall c, c ∈ columns frame1 <-> c ∈ columns frame2) ->
  _require_columns frame1 cols1 = _require_columns frame2 cols2.
Proof.
  intros Hc Hf. unfold _require_columns.
  assert (H1 : (list_to_set cols1 : gset string) = list_to_set cols2).
  { apply set_eq. intros c. rewrite !elem_of_list_to_set. apply Hc. }
  assert (H2 : (list_to_set (columns frame1) : gset string)
               = list_to_set (columns frame2)).
  { apply set_eq. intros c. rewrite !elem_of_list_to_set. apply Hf. }
  now rewrite H1, H2.
Qed.

(** ** Account ids *)

Lemma digit_value_char d : (d < 10)%N -> digit_value (pretty_N_char d) = d.
Proof.
  intros H.
  assert (d = 0 \/ d = 1 \/ d = 2 \/ d = 3 \/ d = 4 \/ d = 5 \/ d = 6 \/ d = 7
          \/ d = 8 \/ d = 9)%N as Hd by lia.
  repeat (destruct Hd as [->|Hd]; [reflexivity|]). now subst.
Qed.

Lemma digits_value_pretty_go x :
  exists k, forall acc s,
    digits_value acc (pretty_N_go x s) = digits_value (acc * 10 ^ k + x) s.
Proof.
  induction (N.lt_wf_0 x) as [x _ IH].
  destruct (decide (x = 0)%N) as [->|Hx].
  - exists 0%N. intros acc s. rewrite pretty_N_go_0. f_equal. lia.
  - destruct (IH (x `div` 10)%N) as [k Hk]; [apply N.div_lt; lia|].
    exists (N.succ k). intros acc s.
    rewrite pretty_N_go_step by lia. rewrite Hk. cbn [digits_value].
    rewrite digit_value_char by (apply N.mod_lt; lia).
    f_equal. rewrite N.pow_succ_r'.
    pose proof (N.div_mod x 10). lia.
Qed.

Lemma digits_value_pretty (i : nat) : digits_value 0 (pretty i) = N.of_nat i.
Proof.
  unfold pretty, pretty_nat, pretty, pretty_N.
  destruct (decide (N.of_nat i = 0)%N) as [->|_]; [reflexivity|].
  destruct (digits_value_pretty_go (N.of_nat i)) as [k Hk].
  rewrite Hk. cbn [digits_value]. lia.
Qed.

Lemma digits_value_zeros m s : digits_value 0 (zeros m +:+ s) = digits_value 0 s.
Proof. induction m as [|m IH]; [reflexivity|exact IH]. Qed.

Lemma account_number_label (i : nat) : account_number (account_label i) = N.of_nat i.
Proof.
  unfold account_label.
  change (digits_value 0 (zeros (6 - String.length (pretty i)) +:+ pretty i)
          = N.of_nat i).
  now rewrite digits_value_zeros, digits_value_pretty.
Qed.

Lemma account_label_inj i j : account_label i = account_label j -> i = j.
Proof.
  intros H. apply (f_equal account_number) in H.
  rewrite !account_number_label in H. lia.
Qed.

Lemma NoDup_account_labels first n : NoDup (map account_label (seq first n)).
Proof.
  change (map account_label (seq first n)) with (account_label <$> seq first n).
  apply NoDup_fmap_2; [intros i j; apply account_label_inj | apply NoDup_seq].
Qed.

(** ** More on generation *)

Lemma concat_lookup_block {A : Type} (ls : list (list A)) (n i j : nat)
    (l : list A) (x : A) :
  Forall (fun l => length l = n) ls ->
  ls !! i = Some l -> l !! j = Some x ->
  concat ls !! (i * n + j)%nat = Some x.
Proof.
  intros Hall. revert i. induction Hall as [|l0 ls Hl0 _ IH]; intros i Hi Hj.
  - rewrite lookup_nil in Hi. discriminate.
  - cbn [concat]. destruct i as [|i].
    + injection Hi as ->. cbn. now apply lookup_app_l_Some.
    + cbn in Hi. rewrite lookup_app_r by (rewrite Hl0; cbn; lia).
      rewrite Hl0. replace (S i * n + j - n)%nat with (i * n + j)%nat by (cbn; lia).
      now apply IH.
Qed.

Lemma elem_of_concat_rows (frames : list DataFrame) (r : Row) :
  r ∈ concat (map rows frames) -> exists frame, frame ∈ frames /\ r ∈ rows frame.
Proof.
  induction frames as [|f frames IH]; cbn [map concat]; intros H.
  - inversion H.
  - apply elem_of_app in H as [H|H].
    + exists f. split; [apply list_elem_of_here | exact H].
    + destruct (IH H) as (frame & Hf & Hr). exists frame.
      split; [now apply list_elem_of_further | exact Hr].
Qed.

Lemma baseline_rows_fields i as_of segs eads lgds coupons terms pds j r :
  baseline_rows i as_of segs eads lgds coupons terms pds !! j = Some r ->
  segs !! j = Some (segment r) /\
  (exists e, eads !! j = Some e /\ ead r = float_of_Z e) /\
  terms !! j = Some (term_months r) /\
  pds !! j = Some (pd_estimate r).
Proof.
  revert i j eads lgds coupons terms pds.
  induction segs as [|s segs IH]; intros i j eads lgds coupons terms pds Hr;
    [discriminate|].
  destruct eads as [|e eads], lgds, coupons, terms, pds; try discriminate.
  cbn [baseline_rows] in Hr. destruct j as [|j].
  - injection Hr as <-. cbn.
    split; [reflexivity|]. split; [eauto|]. split; reflexivity.
  - cbn in Hr. exact (IH _ _ _ _ _ _ _ Hr).
Qed.

Lemma baseline_rows_ids i as_of segs eads lgds coupons terms pds :
  map account_id (baseline_rows i as_of segs eads lgds coupons terms pds)
  = map account_label
      (seq i (length (baseline_rows i as_of segs eads lgds coupons terms pds))).
Proof.
  revert i eads lgds coupons terms pds.
  induction segs as [|s segs IH]; intros i eads lgds coupons terms pds;
    [reflexivity|].
  destruct eads, lgds, coupons, terms, pds; try reflexivity.
  cbn [baseline_rows map length seq]. f_equal. apply IH.
Qed.

Lemma period_rows_lookup (p : Z) (losses rlgds : list float)
    (flags : list bool) (rws : list Row) (j : nat) (r : Row) :
  map (set_period p)
    (zip_with set_loss losses
       (zip_with set_realized_lgd rlgds
          (zip_with set_default_flag flags rws))) !! j = Some r ->
  exists r0 f rl x,
    rws !! j = Some r0 /\
    r = set_period p (set_loss x (set_realized_lgd rl (set_default_flag f r0))).
Proof.
  change (map (set_period p) ?l) with (set_period p <$> l).
  rewrite list_lookup_fmap. intros H.
  apply fmap_Some in H as (r1 & Hr1 & ->).
  apply lookup_zip_with_Some in Hr1 as (x & r2 & -> & _ & Hr2).
  apply lookup_zip_with_Some in Hr2 as (rl & r3 & -> & _ & Hr3).
  apply lookup_zip_with_Some in Hr3 as (f & r0 & -> & _ & Hr0).
  eauto 10.
Qed.

Section MoreGeneration.

Context `{Lib : Library}.

Lemma for_each_lookup_cases self0 segs self :
  (exists vals,
     for_each (fun seg => of_result (lookup_base_pd self0 seg)) segs self
       = (inr vals, self) /\ length vals = length segs) \/
  (exists seg,
     seg ∈ segs /\ base_pd self0 !! seg = None /\
     for_each (fun seg => of_result (lookup_base_pd self0 seg)) segs self
       = (inl (KeyError seg), self)).
Proof.
  induction segs as [|s segs IH].
  - left. exists []. now split.
  - assert (Hcons :
      for_each (fun seg => of_result (lookup_base_pd self0 seg)) (s :: segs) self
      = match base_pd self0 !! s with
        | Some v =>
            match for_each (fun seg => of_result (lookup_base_pd self0 seg)) segs self with
            | (inr vals, self') => (inr (v :: vals), self')
            | (inl e, self') => (inl e, self')
            end
        | None => (inl (KeyError s), self)
        end).
    { cbn [for_each]. unfold bind, of_result, lookup_base_pd, ret.
      now destruct (base_pd self0 !! s). }
    rewrite Hcons. clear Hcons.
    destruct (base_pd self0 !! s) as [v|] eqn:Hs.
    + destruct IH as [(vals & -> & Hlen)|(seg & Hseg & Hn & ->)].
      * left. exists (v :: vals). split; [reflexivity|]. cbn. now rewrite Hlen.
      * right. exists seg. split; [now apply list_elem_of_further|].
        split; [exact Hn | reflexivity].
    + right. exists s. split; [apply list_elem_of_here|].
      split; [exact Hs | reflexivity].
Qed.

(** The method, one draw after the other. *)
Lemma generate_baseline_data_unfold today n d self :
  let c := draws (fun g => choice g (segments self) (_segment_probs self)) n (rng self) in
  let e := draws (fun g => integers g (ead_range self).1 ((ead_range self).2 + 1)) n c.2 in
  let l := draws (fun g => uniform g (lgd_range self).1 (lgd_range self).2) n e.2 in
  let cp := draws (fun g => uniform g (coupon_range self).1 (coupon_range self).2) n l.2 in
  let t := draws (fun g => integers g (term_range_months self).1
                                    ((term_range_months self).2 + 1)) n cp.2 in
  let z := draws (fun g => normal g 1.0%float 0.15%float) n t.2 in
  generate_baseline_data today n d self =
    match (for_each (fun seg => of_result (lookup_base_pd self seg)) c.1
             (with_rng t.2 self)).1 with
    | inr vals =>
        (inr (mkFrame baseline_columns
                (baseline_rows 0 (default today d) c.1 e.1 l.1 cp.1 t.1
                   (zip_with (fun b z => np_clip (b * z)%float (pd_floor self) (pd_cap self))
                      vals z.1))),
         with_rng z.2 self)
    | inl err => (inl err, with_rng t.2 self)
    end.
Proof.
  intros c e l cp t z. unfold generate_baseline_data.
  unfold bind at 1. unfold get_self at 1. cbv zeta.
  do 5 (rewrite bind_with_generator; cbn [rng with_rng]).
  fold c. fold e. fold l. fold cp. fold t.
  destruct (for_each_lookup_cases self c.1 (with_rng t.2 self))
    as [(vals & Hv & _)|(seg & _ & _ & Hv)].
  - rewrite (bind_inr _ _ _ _ _ Hv), Hv. cbn [fst].
    rewrite bind_with_generator. cbn [rng with_rng]. reflexivity.
  - rewrite (bind_inl _ _ _ _ _ Hv), Hv. reflexivity.
Qed.

End MoreGeneration.

Lemma calibrate_columns_historical : calibrate_columns ⊆ historical_columns.
Proof. apply (has_columns_subseteq (mkFrame historical_columns [])). reflexivity. Qed.

Lemma score_columns_baseline : score_columns ⊆ baseline_columns.
Proof. apply (has_columns_subseteq (mkFrame baseline_columns [])). reflexivity. Qed.

Lemma baseline_columns_NoDup : NoDup baseline_columns.
Proof. apply (bool_decide_unpack _). vm_compute. exact I. Qed.

Lemma historical_columns_NoDup : NoDup historical_columns.
Proof. apply (bool_decide_unpack _). vm_compute. exact I. Qed.

Section Outcomes.

Context `{Lib : Library}.

Lemma drawn_segment_elem self seg :
  LibraryLaws Lib -> segments self <> [] ->
  drawn_segment self seg -> seg ∈ segments self.
Proof. intros laws Hne [g ->]. now apply (choice_elem _ laws). Qed.

(** The two ways [generate_baseline_data] ends: with the frame of the drawn
    arrays, or with the [KeyError] of a drawn segment; either way only the
    generator has moved. *)
Lemma generate_baseline_data_cases today n d self :
  (exists segs eads lgds coupons terms pds g,
     generate_baseline_data today n d self =
       (inr (mkFrame baseline_columns
               (baseline_rows 0 (default today d) segs eads lgds coupons terms pds)),
        with_rng g self) /\
     length (baseline_rows 0 (default today d) segs eads lgds coupons terms pds) = n /\
     Forall (drawn_segment self) segs /\
     Forall (fun e => exists g',
               e = (integers g' (ead_range self).1 ((ead_range self).2 + 1)).1) eads /\
     Forall (fun t => exists g',
               t = (integers g' (term_range_months self).1
                                ((term_range_months self).2 + 1)).1) terms /\
     Forall (fun p => exists x, p = np_clip x (pd_floor self) (pd_cap self)) pds) \/
  (exists seg g,
     generate_baseline_data today n d self = (inl (KeyError seg), with_rng g self) /\
     drawn_segment self seg /\ base_pd self !! seg = None /\ (0 < n)%nat).
Proof.
  pose proof (generate_baseline_data_unfold today n d self) as Hu.
  cbv zeta in Hu. rewrite Hu. clear Hu.
  set (c := draws (fun g => choice g (segments self) (_segment_probs self)) n (rng self)).
  set (e := draws _ n c.2). set (l := draws _ n e.2). set (cp := draws _ n l.2).
  set (t := draws _ n cp.2). set (z := draws _ n t.2).
  assert (Hsegs : Forall (drawn_segment self) c.1).
  { apply draws_Forall. intros g'. now exists g'. }
  assert (Hlen_c : length c.1 = n) by apply draws_length.
  destruct (for_each_lookup_cases self c.1 (with_rng t.2 self))
    as [(vals & Hv & Hlen)|(seg & Hseg & Hnone & Hv)]; rewrite Hv; cbn [fst].
  - left. do 7 eexists. split; [reflexivity|].
    split; [|split; [exact Hsegs|split; [|split]]].
    + apply baseline_rows_length; try apply draws_length.
      rewrite length_zip_with, Hlen. unfold c, z. rewrite !draws_length. lia.
    + apply draws_Forall. intros g'. eauto.
    + apply draws_Forall. intros g'. eauto.
    + apply Forall_forall. intros p Hp.
      apply elem_of_lookup_zip_with_1 in Hp as (_ & b & x & -> & _ & _). eauto.
  - right. do 2 eexists. split; [reflexivity|].
    rewrite Forall_forall in Hsegs. split; [now apply Hsegs|].
    split; [exact Hnone|].
    destruct c.1; [inversion Hseg | cbn in Hlen_c; lia].
Qed.

(** What a returned snapshot is. *)
Lemma generate_baseline_data_returned today n d self frame :
  (generate_baseline_data today n d self).1 = inr frame ->
  exists segs eads lgds coupons terms pds g,
    generate_baseline_data today n d self = (inr frame, with_rng g self) /\
    frame = mkFrame baseline_columns
              (baseline_rows 0 (default today d) segs eads lgds coupons terms pds) /\
    length (rows frame) = n /\
    Forall (drawn_segment self) segs /\
    Forall (fun e => exists g',
              e = (integers g' (ead_range self).1 ((ead_range self).2 + 1)).1) eads /\
    Forall (fun t => exists g',
              t = (integers g' (term_range_months self).1
                               ((term_range_months self).2 + 1)).1) terms /\
    Forall (fun p => exists x, p = np_clip x (pd_floor self) (pd_cap self)) pds.
Proof.
  intros H.
  destruct (generate_baseline_data_cases today n d self)
    as [(segs & eads & lgds & coupons & terms & pds & g & Hg & Hrest)
       |(seg & g & Hg & _)]; rewrite Hg in H; [|discriminate].
  injection H as <-. exists segs, eads, lgds, coupons, terms, pds, g.
  split; [exact Hg|]. split; [reflexivity|]. exact Hrest.
Qed.

(** The rows of a returned snapshot. *)
Lemma generate_baseline_data_snapshot today n d self frame :
  (generate_baseline_data today n d self).1 = inr frame ->
  columns frame = baseline_columns /\
  length (rows frame) = n /\
  forall j r, rows frame !! j = Some r ->
    account_id r = account_label j /\
    as_of_date r = default today d /\
    drawn_segment self (segment r) /\
    exists x, pd_estimate r = np_clip x (pd_floor self) (pd_cap self).
Proof.
  intros H.
  destruct (generate_baseline_data_returned today n d self frame H)
    as (segs & eads & lgds & coupons & terms & pds & g & _ & -> & Hlen & Hsegs
        & _ & _ & Hpds).
  split; [reflexivity|]. split; [exact Hlen|]. cbn [rows]. intros j r Hr.
  pose proof (baseline_rows_lookup _ _ _ _ _ _ _ _ _ _ Hr) as (Hid & Hd & Hs).
  apply list_elem_of_lookup_2, baseline_rows_pd in Hr.
  rewrite Forall_forall in Hsegs. rewrite Forall_forall in Hpds.
  split; [exact Hid|]. split; [exact Hd|]. split; [now apply Hsegs|].
  now apply Hpds.
Qed.

(** Of the module's own errors [generate_baseline_data] raises one only:
    the [KeyError] of a configured segment that was drawn and has no entry
    in [base_pd]. At least one account was asked for then, and the scalers
    are as they were. *)
Theorem generate_baseline_data_key_error (laws : LibraryLaws Lib)
    (today : date) (n : nat) (d : option date) (self : CreditRiskModel)
    (e : exn) :
  segments self <> [] ->
  (generate_baseline_data today n d self).1 = inl e ->
  exists seg,
    e = KeyError seg /\ seg ∈ segments self /\ base_pd self !! seg = None /\
    (0 < n)%nat /\
    pd_scalers (generate_baseline_data today n d self).2 = pd_scalers self.
Proof.
  intros Hne He.
  destruct (generate_baseline_data_cases today n d self)
    as [(segs & eads & lgds & coupons & terms & pds & g & Hg & _)
       |(seg & g & Hg & Hseg & Hnone & Hn)]; rewrite Hg in *; [discriminate|].
  injection He as <-. exists seg. split; [reflexivity|].
  split; [now apply drawn_segment_elem|]. now repeat split.
Qed.

(** The account ids of a snapshot are pairwise distinct, whatever its
    size. *)
Theorem generate_baseline_data_unique_ids (today : date) (n : nat)
    (d : option date) (self : CreditRiskModel) (frame : DataFrame) :
  (generate_baseline_data today n d self).1 = inr frame ->
  NoDup (map account_id (rows frame)).
Proof.
  intros H.
  destruct (generate_baseline_data_returned today n d self frame H)
    as (segs & eads & lgds & coupons & terms & pds & g & _ & -> & _).
  cbn [rows]. rewrite baseline_rows_ids. apply NoDup_account_labels.
Qed.

(** A snapshot goes through the scorer as it is, whatever the scalers;
    on an instance whose scalers are all 1.0 the scorer returns its PD
    estimates unchanged: they were clipped when they were generated. *)
Theorem generated_snapshot_scored (today : date) (n : nat) (d : option date)
    (self : CreditRiskModel) (frame : DataFrame) :
  (generate_baseline_data today n d self).1 = inr frame ->
  let self' := (generate_baseline_data today n d self).2 in
  exists scored,
    score_portfolio frame self' = (inr scored, self') /\
    length (rows scored) = length (rows frame) /\
    (uncalibrated self ->
     map pd_calibrated (rows scored) = map pd_estimate (rows frame) /\
     map expected_loss (rows scored)
     = map (fun r => (ead r * lgd r * pd_estimate r)%float) (rows frame)).
Proof.
  intros H. cbv zeta.
  destruct (generate_baseline_data_snapshot today n d self frame H)
    as (Hcols & _ & Hrows).
  destruct (generate_baseline_data_returned today n d self frame H)
    as (_ & _ & _ & _ & _ & _ & g & -> & _). cbn [snd].
  assert (Hsub : score_columns ⊆ columns frame)
    by (rewrite Hcols; apply score_columns_baseline).
  assert (Hd : distinct_labels score_reads frame).
  { apply NoDup_distinct_labels. rewrite Hcols. apply baseline_columns_NoDup. }
  eexists. split; [apply (score_portfolio_ok _ _ Hsub Hd)|]. cbn [rows].
  split; [apply length_map|]. intros Hun.
  assert (Hrow : forall r, r ∈ rows frame ->
            scored_row (with_rng g self) r
            = set_expected_loss (ead r * lgd r * pd_estimate r)%float
                (set_pd_calibrated (pd_estimate r) r)).
  { intros r Hr.
    rewrite (scored_row_uncalibrated _ _ (uncalibrated_with_rng g self Hun)).
    apply list_elem_of_lookup_1 in Hr as [j Hj].
    destruct (Hrows j r Hj) as (_ & _ & _ & x & ->).
    cbn [pd_floor pd_cap with_rng]. now rewrite np_clip_idemp. }
  rewrite !map_map. split; apply map_ext_in; intros r Hr;
    apply list_elem_of_In in Hr; now rewrite (Hrow r Hr).
Qed.

(** With the bounds of [ead_range] and [term_range_months] in order,
    every [term_months] of a snapshot lies within its range, both ends
    included, and every [ead] is the float of an integer within its
    range. *)
Theorem generate_baseline_data_integer_ranges (integer_laws : IntegerLaws Lib)
    (today : date) (n : nat) (d : option date) (self : CreditRiskModel)
    (frame : DataFrame) :
  (ead_range self).1 <= (ead_range self).2 ->
  (term_range_months self).1 <= (term_range_months self).2 ->
  (generate_baseline_data today n d self).1 = inr frame ->
  forall r, r ∈ rows frame ->
    (exists e, ead r = float_of_Z e /\
               (ead_range self).1 <= e <= (ead_range self).2) /\
    (term_range_months self).1 <= term_months r <= (term_range_months self).2.
Proof.
  intros He Ht H r Hr.
  destruct (generate_baseline_data_returned today n d self frame H)
    as (segs & eads & lgds & coupons & terms & pds & g & _ & -> & _ & _
        & Heads & Hterms & _).
  cbn [rows] in Hr. apply list_elem_of_lookup_1 in Hr as [j Hj].
  apply baseline_rows_fields in Hj as (_ & (e & Hej & Head) & Htj & _).
  rewrite Forall_forall in Heads. rewrite Forall_forall in Hterms. split.
  - exists e. split; [exact Head|].
    destruct (Heads e (list_elem_of_lookup_2 _ _ _ Hej)) as [g' ->].
    pose proof (integers_range _ integer_laws g' (ead_range self).1
                  ((ead_range self).2 + 1)). lia.
  - destruct (Hterms _ (list_elem_of_lookup_2 _ _ _ Htj)) as [g' ->].
    pose proof (integers_range _ integer_laws g' (term_range_months self).1
                  ((term_range_months self).2 + 1)). lia.
Qed.

End Outcomes.

(** ** Panels *)

Section Panels.

Context `{Lib : Library}.

Lemma historical_period_cases today start n len i self :
  (exists frame g,
     historical_period today start n len i self = (inr frame, with_rng g self) /\
     period_snapshot self n start len i frame) \/
  (exists seg g,
     historical_period today start n len i self
       = (inl (KeyError seg), with_rng g self) /\
     drawn_segment self seg /\ base_pd self !! seg = None /\ (0 < n)%nat).
Proof.
  destruct (generate_baseline_data_cases today n
              (Some (start + Z.of_nat i * len)) self)
    as [(segs & eads & lgds & coupons & terms & pds & g & Hsnap & _)
       |(seg & g & Hsnap & Hseg & Hnone & Hn)].
  2: { right. exists seg, g. unfold historical_period.
       unfold bind at 1. unfold get_self at 1. cbv zeta.
       rewrite (bind_inl _ _ _ _ _ Hsnap). now repeat split. }
  left. unfold historical_period.
  unfold bind at 1. unfold get_self at 1. cbv zeta.
  assert (Hfst : (generate_baseline_data today n
                    (Some (start + Z.of_nat i * len)) self).1
                 = inr (mkFrame baseline_columns
                          (baseline_rows 0 (start + Z.of_nat i * len) segs eads
                             lgds coupons terms pds)))
    by now rewrite Hsnap.
  destruct (generate_baseline_data_snapshot _ _ _ _ _ Hfst) as (_ & Hlen & Hrows).
  rewrite (bind_inr _ _ _ _ _ Hsnap). clear Hsnap Hfst.
  set (snap := mkFrame baseline_columns _) in *.
  rewrite bind_with_generator. cbn [rng with_rng].
  set (f := draws_over _ (map pd_estimate (rows snap)) g).
  assert (Hlen_f : length f.1 = n).
  { unfold f. rewrite draws_over_length, length_map. exact Hlen. }
  rewrite bind_with_generator. cbn [rng with_rng].
  set (rl := draws _ n f.2).
  assert (Hlen_rl : length rl.1 = n) by apply draws_length.
  unfold ret, assign_scalar, assign. cbn [rows columns].
  do 2 eexists. split; [reflexivity|]. split; [|split]; cbn [rows columns].
  - reflexivity.
  - apply period_rows_length; try assumption.
    + rewrite !length_zip_with, length_map. lia.
    + now rewrite length_map.
  - intros j r Hr. apply period_rows_lookup in Hr as (r0 & fl & x & y & Hr0 & ->).
    destruct (Hrows j r0 Hr0) as (Hid & Hd & Hs & Hx).
    cbn. split; [exact Hid|]. split; [exact Hd|]. split; [exact Hs|].
    split; [reflexivity|]. exact Hx.
Qed.

Lemma historical_periods_cases today start n len first p self :
  (exists frames g,
     for_each (historical_period today start n len) (seq first p) self
       = (inr frames, with_rng g self) /\
     Forall2 (period_snapshot self n start len) (seq first p) frames) \/
  (exists seg g,
     for_each (historical_period today start n len) (seq first p) self
       = (inl (KeyError seg), with_rng g self) /\
     drawn_segment self seg /\ base_pd self !! seg = None /\
     (0 < n)%nat /\ (0 < p)%nat).
Proof.
  revert first self. induction p as [|p IH]; intros first self.
  - left. exists [], (rng self). cbn. unfold ret. rewrite with_rng_same. now split.
  - cbn [seq for_each].
    destruct (historical_period_cases today start n len first self)
      as [(frame & g & Hframe & Hsnap)|(seg & g & Hframe & Hseg & Hnone & Hn)].
    2: { right. exists seg, g. rewrite (bind_inl _ _ _ _ _ Hframe).
         repeat split; try assumption. lia. }
    rewrite (bind_inr _ _ _ _ _ Hframe).
    destruct (IH (S first) (with_rng g self))
      as [(frames & g' & Hframes & Hall)|(seg & g' & Hframes & Hseg & Hnone & Hn & _)].
    + left. rewrite (bind_inr _ _ _ _ _ Hframes). unfold ret.
      exists (frame :: frames), g'. split; [reflexivity|].
      constructor; [exact Hsnap | exact Hall].
    + right. exists seg, g'. rewrite (bind_inl _ _ _ _ _ Hframes).
      repeat split; try assumption. lia.
Qed.

(** The three ways [generate_historical_data] ends. *)
Lemma generate_historical_data_cases today periods n start_date len self :
  (periods = 0%nat /\
   generate_historical_data today periods n start_date len self
     = (inl NoObjectsToConcatenate, self)) \/
  ((0 < periods)%nat /\
   exists frames g,
     generate_historical_data today periods n start_date len self
       = (inr (mkFrame historical_columns (concat (map rows frames))),
          with_rng g self) /\
     Forall2 (period_snapshot self n
                (default (today - Z.of_nat periods * len) start_date) len)
             (seq 0 periods) frames) \/
  ((0 < periods)%nat /\ (0 < n)%nat /\
   exists seg g,
     generate_historical_data today periods n start_date len self
       = (inl (KeyError seg), with_rng g self) /\
     drawn_segment self seg /\ base_pd self !! seg = None).
Proof.
  destruct periods as [|p]; [left; now split|]. right.
  unfold generate_historical_data. cbv zeta.
  destruct (historical_periods_cases today
              (default (today - Z.of_nat (S p) * len) start_date)
              n len 0 (S p) self)
    as [(frames & g & Hframes & Hall)|(seg & g & Hframes & Hseg & Hnone & Hn & _)].
  - left. split; [lia|]. rewrite (bind_inr _ _ _ _ _ Hframes).
    exists frames, g. split; [|exact Hall].
    cbn [seq] in Hall. destruct frames as [|frame frames]; [inversion Hall|].
    apply Forall2_cons_1 in Hall as [(Hcols & _) _].
    unfold of_result, pd_concat. now rewrite Hcols.
  - right. split; [lia|]. split; [exact Hn|]. exists seg, g.
    rewrite (bind_inl _ _ _ _ _ Hframes). now split.
Qed.

Lemma generate_historical_data_returned today periods n start_date len self frame :
  (generate_historical_data today periods n start_date len self).1 = inr frame ->
  (0 < periods)%nat /\
  exists frames g,
    generate_historical_data today periods n start_date len self
      = (inr frame, with_rng g self) /\
    frame = mkFrame historical_columns (concat (map rows frames)) /\
    Forall2 (period_snapshot self n
               (default (today - Z.of_nat periods * len) start_date) len)
            (seq 0 periods) frames.
Proof.
  intros H.
  destruct (generate_historical_data_cases today periods n start_date len self)
    as [(_ & Hg)|[(Hp & frames & g & Hg & Hall)|(_ & _ & seg & g & Hg & _)]];
    rewrite Hg in H; try discriminate.
  injection H as <-. split; [exact Hp|]. exists frames, g. now repeat split.
Qed.

Lemma panel_row_snapshot self n start len periods frames r :
  Forall2 (period_snapshot self n start len) (seq 0 periods) frames ->
  r ∈ concat (map rows frames) ->
  drawn_segment self (segment r) /\
  exists x, pd_estimate r = np_clip x (pd_floor self) (pd_cap self).
Proof.
  intros Hall Hr.
  apply elem_of_concat_rows in Hr as (frame & Hframe & Hr).
  apply list_elem_of_lookup_1 in Hframe as [i Hi].
  destruct (Forall2_lookup_r _ _ _ i frame Hall Hi) as (k & _ & _ & _ & Hrows).
  apply list_elem_of_lookup_1 in Hr as [j Hj].
  destruct (Hrows j r Hj) as (_ & _ & Hs & _ & Hx). now split.
Qed.

(** A panel has the snapshot's columns followed by [default_flag],
    [realized_lgd], [loss] and [period]; period [i] (from 0) fills the
    positions [i * n .. (i + 1) * n - 1]: there the account ids start again
    from [ACC-000000], the date is the start date plus [i] period lengths,
    the start date defaulting to [periods] period lengths before today,
    and the segment is a configured one. *)
Theorem generate_historical_data_layout (laws : LibraryLaws Lib)
    (today : date) (periods n : nat) (start_date : option date)
    (period_length_days : Z) (self : CreditRiskModel) (frame : DataFrame) :
  segments self <> [] ->
  (generate_historical_data today periods n start_date period_length_days
     self).1 = inr frame ->
  columns frame = historical_columns /\
  forall i j, (i < periods)%nat -> (j < n)%nat ->
    exists r,
      rows frame !! (i * n + j)%nat = Some r /\
      account_id r = account_label j /\
      as_of_date r =
        default (today - Z.of_nat periods * period_length_days) start_date
        + Z.of_nat i * period_length_days /\
      segment r ∈ segments self /\
      period r = Z.of_nat i + 1.
Proof.
  intros Hne H.
  destruct (generate_historical_data_returned _ _ _ _ _ _ _ H)
    as (_ & frames & g & _ & -> & Hall).
  cbn [columns rows]. split; [reflexivity|].
  intros i j Hi Hj.
  destruct (Forall2_lookup_l _ _ _ i i Hall) as (frame & Hframe & Hsnap).
  { rewrite lookup_seq. split; [reflexivity | exact Hi]. }
  destruct Hsnap as (_ & Hlen & Hrows).
  destruct (lookup_lt_is_Some_2 (rows frame) j) as [r Hr]; [lia|].
  destruct (Hrows j r Hr) as (Hid & Hd & Hs & Hper & _).
  exists r. split.
  - apply (concat_lookup_block _ n i j (rows frame)).
    + clear -Hall.
      induction Hall as [|? ? ? ? (_ & Hlen & _) _ IH]; constructor; assumption.
    + now apply map_lookup_Some.
    + exact Hr.
  - split; [exact Hid|]. split; [exact Hd|].
    split; [now apply drawn_segment_elem | exact Hper].
Qed.

(** With [pd_floor <= pd_cap], every [pd_estimate] of a panel is NaN or
    lies within [pd_floor, pd_cap], as in a snapshot. *)
Theorem generate_historical_data_pd_bounds (today : date) (periods n : nat)
    (start_date : option date) (period_length_days : Z)
    (self : CreditRiskModel) (frame : DataFrame) :
  PrimFloat.leb (pd_floor self) (pd_cap self) = true ->
  (generate_historical_data today periods n start_date period_length_days
     self).1 = inr frame ->
  forall r, r ∈ rows frame ->
    PrimFloat.is_nan (pd_estimate r) = false ->
    within (pd_floor self) (pd_cap self) (pd_estimate r).
Proof.
  intros Hle H r Hr.
  destruct (generate_historical_data_returned _ _ _ _ _ _ _ H)
    as (_ & frames & g & _ & -> & Hall).
  cbn [rows] in Hr.
  destruct (panel_row_snapshot _ _ _ _ _ _ _ Hall Hr) as (_ & x & ->).
  now apply np_clip_not_nan_within.
Qed.

(** A panel goes through [calibrate_pd] as it is, and the generator stays
    where generation left it; the summary has one row for each segment met
    in the panel and for no other, all of them configured segments, so no
    more rows than there are segments. *)
Theorem generated_panel_calibrated (laws : LibraryLaws Lib)
    (today : date) (periods n : nat) (start_date : option date)
    (period_length_days : Z) (self : CreditRiskModel) (history : DataFrame) :
  segments self <> [] ->
  (generate_historical_data today periods n start_date period_length_days
     self).1 = inr history ->
  let self1 :=
    (generate_historical_data today periods n start_date period_length_days
       self).2 in
  exists table self2,
    calibrate_pd history self1 = (inr table, self2) /\
    rng self2 = rng self1 /\
    NoDup (map cal_segment table) /\
    (forall seg, seg ∈ map cal_segment table
                 <-> seg ∈ map segment (rows history)) /\
    (forall row, row ∈ table -> cal_segment row ∈ segments self) /\
    (length table <= length (segments self))%nat.
Proof.
  intros Hne H. cbv zeta.
  destruct (generate_historical_data_returned _ _ _ _ _ _ _ H)
    as (_ & frames & g & -> & -> & Hall). cbn [snd].
  do 2 eexists.
  split.
  { apply calibrate_pd_distinct; [apply calibrate_columns_historical|].
    apply NoDup_distinct_labels, historical_columns_NoDup. }
  split; [reflexivity|].
  set (history := mkFrame historical_columns (concat (map rows frames))).
  assert (Hkeys : map cal_segment (map group_summary (groupby_segment history))
                  = map fst (groupby_segment history)).
  { rewrite map_map. reflexivity. }
  assert (Hnd : NoDup (map cal_segment (map group_summary (groupby_segment history)))).
  { rewrite Hkeys. apply groupby_segment_keys_NoDup. }
  assert (Hsub : forall seg,
            seg ∈ map cal_segment (map group_summary (groupby_segment history)) ->
            seg ∈ segments self).
  { intros seg. rewrite Hkeys, groupby_segment_key_elem. cbn [rows history].
    intros Hseg. apply elem_of_map in Hseg as (r & -> & Hr).
    destruct (panel_row_snapshot _ _ _ _ _ _ _ Hall Hr) as (Hs & _).
    now apply drawn_segment_elem. }
  split; [exact Hnd|]. split; [|split].
  - intros seg. rewrite Hkeys. apply groupby_segment_key_elem.
  - intros row Hrow. apply Hsub. now apply elem_of_map_2.
  - rewrite <- (length_map cal_segment).
    apply submseteq_length, NoDup_submseteq; assumption.
Qed.

(** Of the module's own errors [generate_historical_data] raises two only:
    without periods, the error of [pd.concat] on an empty list; with
    periods and accounts, the [KeyError] of a configured segment that was
    drawn and has no entry in [base_pd]. The scalers are as they were. *)
Theorem generate_historical_data_errors (laws : LibraryLaws Lib)
    (today : date) (periods n : nat) (start_date : option date)
    (period_length_days : Z) (self : CreditRiskModel) (e : exn) :
  segments self <> [] ->
  (generate_historical_data today periods n start_date period_length_days
     self).1 = inl e ->
  ((periods = 0%nat /\ e = NoObjectsToConcatenate) \/
   ((0 < periods)%nat /\ (0 < n)%nat /\
    exists seg,
      e = KeyError seg /\ seg ∈ segments self /\ base_pd self !! seg = None)) /\
  pd_scalers
    (generate_historical_data today periods n start_date period_length_days
       self).2 = pd_scalers self.
Proof.
  intros Hne He.
  destruct (generate_historical_data_cases today periods n start_date
              period_length_days self)
    as [(Hp & Hg)|[(_ & frames & g & Hg & _)|(Hp & Hn & seg & g & Hg & Hseg & Hnone)]];
    rewrite Hg in *; cbn [fst snd] in *; try discriminate.
  - injection He as <-. split; [|reflexivity]. left. now split.
  - injection He as <-. split; [|reflexivity]. right.
    split; [exact Hp|]. split; [exact Hn|]. exists seg.
    split; [reflexivity|]. split; [now apply drawn_segment_elem | exact Hnone].
Qed.

End Panels.

(** ** Generation and calibration do not meet *)

Section Blind.

Context `{Lib : Library}.

Lemma blind_ret {A : Type} (a : A) : scaler_blind (ret a).
Proof. intros s self. reflexivity. Qed.

Lemma blind_of_result {A : Type} (r : exn + A) : scaler_blind (of_result r).
Proof. intros s self. reflexivity. Qed.

Lemma blind_with_generator {A : Type} (draw : Generator -> A * Generator) :
  scaler_blind (with_generator draw).
Proof.
  intros s self. unfold with_generator. cbn [rng with_pd_scalers].
  now destruct (draw (rng self)).
Qed.

Lemma blind_bind {A B : Type} (c : M A) (k : A -> M B) :
  scaler_blind c -> (forall a, scaler_blind (k a)) -> scaler_blind (bind c k).
Proof.
  intros Hc Hk s self. unfold bind. rewrite Hc.
  destruct (c self) as [[e|a] self1]; cbn [fst snd]; [reflexivity|].
  rewrite (Hk a). now destruct (k a self1).
Qed.

Lemma blind_bind_get_self {B : Type} (k : CreditRiskModel -> M B) :
  (forall self0, scaler_blind (k self0)) ->
  (forall s self0, k (with_pd_scalers s self0) = k self0) ->
  scaler_blind (bind get_self k).
Proof.
  intros Hk Hconf s self. unfold bind, get_self.
  rewrite Hconf, (Hk self). now destruct (k self self).
Qed.

Lemma blind_for_each {A B : Type} (body : A -> M B) (l : list A) :
  (forall a, scaler_blind (body a)) -> scaler_blind (for_each body l).
Proof.
  intros Hbody. induction l as [|a l IH]; cbn [for_each].
  - apply blind_ret.
  - apply blind_bind; [apply Hbody|]. intros b.
    apply blind_bind; [exact IH|]. intros bs. apply blind_ret.
Qed.

Lemma blind_generate_baseline_data today n d :
  scaler_blind (generate_baseline_data today n d).
Proof.
  unfold generate_baseline_data. apply blind_bind_get_self.
  - intros self0. cbv zeta.
    repeat first
      [ apply blind_ret
      | apply blind_bind;
        [ first [apply blind_with_generator
                | apply blind_for_each; intros seg; apply blind_of_result]
        | intros ? ] ].
  - intros s self0. reflexivity.
Qed.

Lemma blind_historical_period today start n len i :
  scaler_blind (historical_period today start n len i).
Proof.
  unfold historical_period. apply blind_bind_get_self.
  - intros self0. cbv zeta.
    apply blind_bind; [apply blind_generate_baseline_data|]. intros snap.
    apply blind_bind; [apply blind_with_generator|]. intros flags.
    apply blind_bind; [apply blind_with_generator|]. intros rl.
    apply blind_ret.
  - intros s self0. reflexivity.
Qed.

Lemma blind_generate_historical_data today p n d len :
  scaler_blind (generate_historical_data today p n d len).
Proof.
  unfold generate_historical_data. cbv zeta.
  apply blind_bind.
  - apply blind_for_each. intros i. apply blind_historical_period.
  - intros records. apply blind_of_result.
Qed.

(** Generation never looks at the scalers and [calibrate_pd] never draws:
    after a call of [calibrate_pd], on any table and whether it returned
    or raised, the generators return the tables they would have returned
    without it, and leave the generator in the same state. *)
Theorem calibration_leaves_generation (history : DataFrame) (today : date)
    (num_accounts periods accounts_per_period : nat)
    (as_of_date start_date : option date) (period_length_days : Z)
    (self : CreditRiskModel) :
  let self' := (calibrate_pd history self).2 in
  let snapshot := generate_baseline_data today num_accounts as_of_date in
  let panel :=
    generate_historical_data today periods accounts_per_period start_date
      period_length_days in
  (snapshot self').1 = (snapshot self).1 /\
  rng (snapshot self').2 = rng (snapshot self).2 /\
  (panel self').1 = (panel self).1 /\
  rng (panel self').2 = rng (panel self).2.
Proof.
  cbv zeta. rewrite (calibrate_pd_state history self).
  rewrite blind_generate_baseline_data, blind_generate_historical_data.
  cbn [fst snd rng with_pd_scalers]. repeat split.
Qed.

End Blind.

Lemma lcg_integer_laws : IntegerLaws lcg_library.
Proof.
  split. intros g low high Hlt. cbn. unfold lcg_integers. cbn [fst].
  apply Z.ltb_lt in Hlt as Hb. rewrite Hb.
  pose proof (Z.mod_pos_bound (g / 2 ^ 16) (high - low)). lia.
Qed.


Lemma sample_portfolio_reads :
  distinct_labels (score_reads ++ stress_reads) sample_portfolio.
Proof. apply NoDup_distinct_labels, sample_portfolio_labels. Qed.

Lemma sample_portfolio_score_reads : distinct_labels score_reads sample_portfolio.
Proof. apply NoDup_distinct_labels, sample_portfolio_labels. Qed.


Example unconfigured_snapshot_sample :
  (generate_baseline_data 738000 5 None sample_unconfigured_model).1
  = inl (KeyError "Gold").
Proof. vm_compute. reflexivity. Qed.

Example unconfigured_panel_sample :
  (generate_historical_data 738000 2 5 None 30 sample_unconfigured_model).1
  = inl (KeyError "Gold").
Proof. vm_compute. reflexivity. Qed.

(** ** The added theorems on the samples *)


(** [score_portfolio_idempotent] on the sample portfolio. *)
Lemma score_portfolio_idempotent_witness :
  score_columns ⊆ columns sample_portfolio /\
  distinct_labels score_reads sample_portfolio /\
  exists scored,
    score_portfolio sample_portfolio sample_model = (inr scored, sample_model) /\
    score_portfolio scored sample_model = (inr scored, sample_model).
Proof.
  split; [exact sample_portfolio_columns|].
  split; [exact sample_portfolio_score_reads|].
  exact (score_portfolio_idempotent sample_portfolio sample_model
           sample_portfolio_columns sample_portfolio_score_reads).
Defined.

(** [run_stress_scenario_rescored] on the sample portfolio, with the
    default scenario. *)
Lemma run_stress_scenario_rescored_witness :
  score_columns ⊆ columns sample_portfolio /\
  distinct_labels (score_reads ++ stress_reads) sample_portfolio /\
  exists scored stressed,
    score_portfolio sample_portfolio sample_model = (inr scored, sample_model) /\
    run_stress_scenario sample_portfolio 1.35 0.05 None sample_model
      = (inr stressed, sample_model) /\
    run_stress_scenario scored 1.35 0.05 None sample_model
      = (inr stressed, sample_model) /\
    run_stress_scenario stressed 1.35 0.05 None sample_model
      = (inr stressed, sample_model).
Proof.
  split; [exact sample_portfolio_columns|].
  split; [exact sample_portfolio_reads|].
  exact (run_stress_scenario_rescored sample_portfolio 1.35 0.05 None
           sample_model sample_portfolio_columns sample_portfolio_reads).
Defined.

(** [result_columns_layout] on the sample portfolio. *)
Lemma result_columns_layout_witness :
  score_columns ⊆ columns sample_portfolio /\
  distinct_labels (score_reads ++ stress_reads) sample_portfolio /\
  exists scored stressed,
    score_portfolio sample_portfolio sample_model = (inr scored, sample_model) /\
    run_stress_scenario sample_portfolio 1.35 0.05 None sample_model
      = (inr stressed, sample_model) /\
    columns scored =
      columns sample_portfolio
      ++ filter (fun c => c ∉ columns sample_portfolio)
           ["pd_calibrated"; "expected_loss"] /\
    columns stressed =
      columns sample_portfolio
      ++ filter (fun c => c ∉ columns sample_portfolio)
           ["pd_calibrated"; "expected_loss"; "pd_stressed"; "lgd_stressed";
            "expected_loss_stressed"].
Proof.
  split; [exact sample_portfolio_columns|].
  split; [exact sample_portfolio_reads|].
  exact (result_columns_layout sample_portfolio 1.35 0.05 None sample_model
           sample_portfolio_columns sample_portfolio_reads).
Defined.

(** The columns of the stressed sample portfolio. *)
Example result_columns_sample :
  exists stressed,
    (run_stress_scenario sample_portfolio 1.35 0.05 None sample_model).1
      = inr stressed /\
    columns stressed =
      ["account_id"; "as_of_date"; "segment"; "ead"; "lgd"; "coupon";
       "term_months"; "pd_estimate"; "pd_calibrated"; "expected_loss";
       "pd_stressed"; "lgd_stressed"; "expected_loss_stressed"].
Proof. eexists. split; vm_compute; reflexivity. Qed.






(** The calibrated PDs of the sample portfolio after calibration on the
    sample panel: the prime account is scaled by 0.25 and floored, the
    subprime one by 4, the unrated one is capped. *)
Example calibrated_scores_sample :
  exists scored,
    (score_portfolio sample_portfolio
       (calibrate_pd sample_history sample_model).2).1 = inr scored /\
    map pd_calibrated (rows scored) = [0.001; 0.2; 0.4]%float.
Proof. eexists. split; vm_compute; reflexivity. Qed.

(** [require_columns_names] on the incomplete table and its reordering. *)
Lemma require_columns_names_witness :
  (forall c, c ∈ score_columns
             <-> c ∈ ["pd_estimate"; "lgd"; "ead"; "segment"; "account_id"; "lgd"]) /\
  (forall c, c ∈ columns sample_incomplete <-> c ∈ columns sample_shuffled) /\
  _require_columns sample_incomplete score_columns
  = _require_columns sample_shuffled
      ["pd_estimate"; "lgd"; "ead"; "segment"; "account_id"; "lgd"].
Proof.
  assert (H1 : forall c, c ∈ score_columns
             <-> c ∈ ["pd_estimate"; "lgd"; "ead"; "segment"; "account_id"; "lgd"]).
  { intros c. unfold score_columns. rewrite !elem_of_cons, !elem_of_nil. tauto. }
  assert (H2 : forall c, c ∈ columns sample_incomplete
                         <-> c ∈ columns sample_shuffled).
  { intros c. cbn [columns sample_incomplete sample_shuffled].
    rewrite !elem_of_cons, !elem_of_nil. tauto. }
  split; [exact H1|]. split; [exact H2|].
  exact (require_columns_names sample_incomplete sample_shuffled _ _ H1 H2).
Defined.

(** [generate_baseline_data_key_error] on the instance with a segment
    without base PD. *)
Lemma generate_baseline_data_key_error_witness :
  LibraryLaws lcg_library /\
  segments sample_unconfigured_model <> [] /\
  (generate_baseline_data 738000 5 None sample_unconfigured_model).1
    = inl (KeyError "Gold") /\
  exists seg,
    KeyError "Gold" = KeyError seg /\
    seg ∈ segments sample_unconfigured_model /\
    base_pd sample_unconfigured_model !! seg = None /\
    (0 < 5)%nat /\
    pd_scalers (generate_baseline_data 738000 5 None sample_unconfigured_model).2
    = pd_scalers sample_unconfigured_model.
Proof.
  assert (H1 : segments sample_unconfigured_model <> []) by discriminate.
  assert (H2 : (generate_baseline_data 738000 5 None sample_unconfigured_model).1
               = inl (KeyError "Gold")) by (vm_compute; reflexivity).
  split; [exact lcg_library_laws|]. split; [exact H1|]. split; [exact H2|].
  exact (generate_baseline_data_key_error lcg_library_laws 738000 5 None
           sample_unconfigured_model (KeyError "Gold") H1 H2).
Defined.

(** [generate_baseline_data_unique_ids] for five accounts. *)
Lemma generate_baseline_data_unique_ids_witness :
  exists frame,
    (generate_baseline_data 738000 5 None sample_model).1 = inr frame /\
    NoDup (map account_id (rows frame)).
Proof.
  eexists. split; [vm_compute; reflexivity|].
  apply (generate_baseline_data_unique_ids 738000 5 None sample_model).
  vm_compute. reflexivity.
Defined.

(** [generated_snapshot_scored] for five accounts on a new instance. *)
Lemma generated_snapshot_scored_witness :
  exists frame,
    (generate_baseline_data 738000 5 None sample_model).1 = inr frame /\
    let self' := (generate_baseline_data 738000 5 None sample_model).2 in
    exists scored,
      score_portfolio frame self' = (inr scored, self') /\
      length (rows scored) = length (rows frame) /\
      (uncalibrated sample_model ->
       map pd_calibrated (rows scored) = map pd_estimate (rows frame) /\
       map expected_loss (rows scored)
       = map (fun r => (ead r * lgd r * pd_estimate r)%float) (rows frame)).
Proof.
  eexists. split; [vm_compute; reflexivity|].
  apply (generated_snapshot_scored 738000 5 None sample_model).
  vm_compute. reflexivity.
Defined.

(** [generate_baseline_data_integer_ranges] for five accounts. *)
Lemma generate_baseline_data_integer_ranges_witness :
  IntegerLaws lcg_library /\
  (ead_range sample_model).1 <= (ead_range sample_model).2 /\
  (term_range_months sample_model).1 <= (term_range_months sample_model).2 /\
  exists frame,
    (generate_baseline_data 738000 5 None sample_model).1 = inr frame /\
    forall r, r ∈ rows frame ->
      (exists e, ead r = float_of_Z e /\
                 (ead_range sample_model).1 <= e <= (ead_range sample_model).2) /\
      (term_range_months sample_model).1 <= term_months r
        <= (term_range_months sample_model).2.
Proof.
  assert (H1 : (ead_range sample_model).1 <= (ead_range sample_model).2)
    by (cbn; lia).
  assert (H2 : (term_range_months sample_model).1
               <= (term_range_months sample_model).2) by (cbn; lia).
  split; [exact lcg_integer_laws|]. split; [exact H1|]. split; [exact H2|].
  eexists. split; [vm_compute; reflexivity|].
  apply (generate_baseline_data_integer_ranges lcg_integer_laws 738000 5 None
           sample_model _ H1 H2).
  vm_compute. reflexivity.
Defined.

(** The exposures and terms of that snapshot. *)
Example generate_baseline_data_integers_sample :
  exists frame,
    (generate_baseline_data 738000 5 None sample_model).1 = inr frame /\
    forallb (fun r => (12 <=? term_months r) && (term_months r <=? 72))
            (rows frame) = true /\
    forallb (fun r => PrimFloat.leb 1000 (ead r) && PrimFloat.leb (ead r) 25000)
            (rows frame) = true.
Proof. eexists. split; [|split]; vm_compute; reflexivity. Qed.

(** [generate_historical_data_layout] for two periods of ten accounts. *)
Lemma generate_historical_data_layout_witness :
  LibraryLaws lcg_library /\ segments sample_model <> [] /\
  exists frame,
    (generate_historical_data 738000 2 10 None 30 sample_model).1 = inr frame /\
    columns frame = historical_columns /\
    forall i j, (i < 2)%nat -> (j < 10)%nat ->
      exists r,
        rows frame !! (i * 10 + j)%nat = Some r /\
        account_id r = account_label j /\
        as_of_date r =
          default (738000 - Z.of_nat 2 * 30) None + Z.of_nat i * 30 /\
        segment r ∈ segments sample_model /\
        period r = Z.of_nat i + 1.
Proof.
  assert (H : segments sample_model <> []) by discriminate.
  split; [exact lcg_library_laws|]. split; [exact H|].
  eexists. split; [vm_compute; reflexivity|].
  apply (generate_historical_data_layout lcg_library_laws 738000 2 10 None 30
           sample_model _ H).
  vm_compute. reflexivity.
Defined.

(** [generate_historical_data_pd_bounds] for two periods of ten accounts. *)
Lemma generate_historical_data_pd_bounds_witness :
  PrimFloat.leb (pd_floor sample_model) (pd_cap sample_model) = true /\
  exists frame,
    (generate_historical_data 738000 2 10 None 30 sample_model).1 = inr frame /\
    forall r, r ∈ rows frame ->
      PrimFloat.is_nan (pd_estimate r) = false ->
      within (pd_floor sample_model) (pd_cap sample_model) (pd_estimate r).
Proof.
  assert (Hle : PrimFloat.leb (pd_floor sample_model) (pd_cap sample_model) = true)
    by reflexivity.
  split; [exact Hle|].
  eexists. split; [vm_compute; reflexivity|].
  apply (generate_historical_data_pd_bounds 738000 2 10 None 30 sample_model _ Hle).
  vm_compute. reflexivity.
Defined.

(** [generated_panel_calibrated] for two periods of ten accounts. *)
Lemma generated_panel_calibrated_witness :
  LibraryLaws lcg_library /\ segments sample_model <> [] /\
  exists history,
    (generate_historical_data 738000 2 10 None 30 sample_model).1 = inr history /\
    let self1 := (generate_historical_data 738000 2 10 None 30 sample_model).2 in
    exists table self2,
      calibrate_pd history self1 = (inr table, self2) /\
      rng self2 = rng self1 /\
      NoDup (map cal_segment table) /\
      (forall seg, seg ∈ map cal_segment table
                   <-> seg ∈ map segment (rows history)) /\
      (forall row, row ∈ table -> cal_segment row ∈ segments sample_model) /\
      (length table <= length (segments sample_model))%nat.
Proof.
  assert (H : segments sample_model <> []) by discriminate.
  split; [exact lcg_library_laws|]. split; [exact H|].
  eexists. split; [vm_compute; reflexivity|].
  apply (generated_panel_calibrated lcg_library_laws 738000 2 10 None 30
           sample_model _ H).
  vm_compute. reflexivity.
Defined.

(** [generate_historical_data_errors] on the instance with a segment
    without base PD. *)
Lemma generate_historical_data_errors_witness :
  LibraryLaws lcg_library /\
  segments sample_unconfigured_model <> [] /\
  (generate_historical_data 738000 2 5 None 30 sample_unconfigured_model).1
    = inl (KeyError "Gold") /\
  ((2%nat = 0%nat /\ KeyError "Gold" = NoObjectsToConcatenate) \/
   ((0 < 2)%nat /\ (0 < 5)%nat /\
    exists seg,
      KeyError "Gold" = KeyError seg /\
      seg ∈ segments sample_unconfigured_model /\
      base_pd sample_unconfigured_model !! seg = None)) /\
  pd_scalers
    (generate_historical_data 738000 2 5 None 30 sample_unconfigured_model).2
  = pd_scalers sample_unconfigured_model.
Proof.
  assert (H1 : segments sample_unconfigured_model <> []) by discriminate.
  assert (H2 : (generate_historical_data 738000 2 5 None 30
                  sample_unconfigured_model).1 = inl (KeyError "Gold"))
    by (vm_compute; reflexivity).
  split; [exact lcg_library_laws|]. split; [exact H1|]. split; [exact H2|].
  exact (generate_historical_data_errors lcg_library_laws 738000 2 5 None 30
           sample_unconfigured_model (KeyError "Gold") H1 H2).
Defined.

(** ** Two instances *)


Section TwoInstances.

Context `{Lib : Library}.






End TwoInstances.


